(** * predai: resampling, counter accumulation, subtraction, persistence
      and forecast publication

    A shallow embedding of [predai.py].  Sensor readings are exact
    integers here (a reading in its smallest unit): rounding, NaN and
    infinities of binary floating point are outside the model.  A NaN
    that the code tests for explicitly ([math.isnan]) is an absent
    value, [None].  Instants are whole minutes since the epoch, the
    resolution that [timestr_to_datetime] keeps. *)

From stdpp Require Import gmap list strings.

Open Scope Z_scope.

(** ** Aware datetimes *)

(** A timezone-aware [datetime]: the instant in minutes since the epoch
    and the UTC offset of its zone in minutes.  Python compares aware
    datetimes by instant; the wall-clock fields are those of the zone. *)
Record datetime := DateTime { instant : Z; utcoffset : Z }.

Definition dt_leb (a b : datetime) : bool := instant a <=? instant b.
Definition dt_ltb (a b : datetime) : bool := instant a <? instant b.
Definition dt_eqb (a b : datetime) : bool := instant a =? instant b.

Definition wall_clock (d : datetime) : Z := instant d + utcoffset d.
Definition hour (d : datetime) : Z := (wall_clock d / 60) mod 24.
Definition minute (d : datetime) : Z := wall_clock d mod 60.

(** [d.replace(second=0, microsecond=0, minute=0)] *)
Definition replace_minute0 (d : datetime) : datetime :=
  DateTime (instant d - minute d) (utcoffset d).

(** [d + timedelta(minutes=m)] *)
Definition add_minutes (d : datetime) (m : Z) : datetime :=
  DateTime (instant d + m) (utcoffset d).

(** ** Data frames and raw samples *)

(** A row of a [["ds", "y"]] data frame. *)
Record row := Row { ds : datetime; y : Z }.

(** One raw sample of the history.  [state] is what [float(...)] makes
    of the state string ([None]: it raises [ValueError]); [last_updated]
    is what [timestr_to_datetime] makes of the timestamp string ([None]:
    neither format matches). *)
Record sample := Sample { state : option Z; last_updated : option datetime }.

Module Prophet.

(** The local variables of [process_dataset] that its loop updates. *)
Record loop_state := LoopState {
  timenow : datetime;
  data_index : nat;
  value : Z;
  total : Z;
  last_value : option Z;
  dataset : list row
}.

Section process_dataset.

Variable period : Z.
Variable new_data : list sample.
Variables start_time end_time : datetime.
Variable incrementing : bool.
Variables max_increment reset_low reset_high : Z.

(** The reset test of line 158. *)
Definition is_reset (value last_value : Z) : bool :=
  (value <? last_value) && (value <? reset_low) && (last_value >? reset_high).

(** The spike test of line 162; [max_increment] is tested for truth. *)
Definition is_spike (value last_value : Z) : bool :=
  negb (max_increment =? 0) && (Z.abs (value - last_value) >? max_increment).

(** Lines 158-166: the [incrementing] update of [value] and [total]. *)
Definition accumulate (total value last_value : Z) : Z * Z :=
  if is_reset value last_value then (value, total + value)
  else
    let value := if is_spike value last_value then last_value else value in
    (value, Z.max (total + value - last_value) 0).

(** Lines 142-151: the parse of the state.  [Some (value, last_value)],
    or [None] when the sample is dropped for want of a seed. *)
Definition parse (st : loop_state) (s : sample) : option (Z * Z) :=
  match state s, last_value st with
  | Some v, None => Some (v, v)
  | Some v, Some lv => Some (v, lv)
  | None, Some lv => Some (lv, lv)
  | None, None => None
  end.

(** Line 169: [not start_time or start_time < timenow]. *)
Definition before_tick (s : sample) (timenow : datetime) : bool :=
  match last_updated s with
  | None => true
  | Some t => dt_ltb t timenow
  end.

Definition next_sample (st : loop_state) : loop_state :=
  LoopState (timenow st) (S (data_index st)) (value st) (total st)
            (last_value st) (dataset st).

(** Lines 142-167 for a sample: the new [value] and [total], or [None]
    when the sample is dropped for want of a seed.  [last_value]
    becomes the new [value]. *)
Definition update (st : loop_state) (s : sample) : option (Z * Z) :=
  '(value, last) ← parse st s;
  Some (if incrementing then accumulate (total st) value last
        else (value, total st)).

(** Lines 169-178: pass the sample by, or emit a row at the tick and
    move the tick; the sample stays current after a row. *)
Definition commit (st : loop_state) (s : sample) (value total : Z)
  : loop_state :=
  if before_tick s (timenow st) then
    LoopState (timenow st) (S (data_index st)) value total
              (Some value) (dataset st)
  else
    let real_value := if incrementing then Z.max 0 total else value in
    let total := if incrementing then 0 else total in
    LoopState (add_minutes (timenow st) period) (data_index st) value
              total (Some value)
              (dataset st ++ [Row (timenow st) real_value]).

(** One pass through the body of the [while] loop. *)
Definition loop_body (st : loop_state) : loop_state :=
  match new_data !! data_index st with
  | None => st
  | Some s =>
    match update st s with
    | None => next_sample st
    | Some (value, total) => commit st s value total
    end
  end.

(** Line 141: the loop condition. *)
Definition loop_cond (st : loop_state) : bool :=
  dt_leb (timenow st) end_time && (data_index st <? length new_data)%nat.

(** The loop, cut after [fuel] passes: [None] when it is still running. *)
Fixpoint loop (fuel : nat) (st : loop_state) : option loop_state :=
  if loop_cond st then
    match fuel with
    | O => None
    | S fuel => loop fuel (loop_body st)
    end
  else Some st.

Definition init : loop_state :=
  LoopState (replace_minute0 start_time) 0 0 0 None [].

(** Passes that the loop can make at most when [period] is positive:
    one per sample passed and one per tick up to [end_time]. *)
Definition passes : nat :=
  (length new_data
   + Z.to_nat ((instant end_time - instant (replace_minute0 start_time))
               / period + 1))%nat.

(** [process_dataset]: the data frame and the last value.  [None]
    stands for a loop that does not end (a [period] of zero or less). *)
Definition process_dataset : option (list row * Z) :=
  st ← loop passes init; Some (dataset st, value st).

End process_dataset.

(** ** Publication of the forecast *)

(** A row of the forecast frame: the naive timestamp [ds] in minutes,
    the prediction [yhat1] and the actual [y], [None] where it is NaN. *)
Record forecast_row := ForecastRow {
  pred_ds : Z;
  pred_yhat1 : Z;
  pred_y : option Z
}.

(** [ts.tz_localize(timezone.utc)] *)
Definition tz_localize_utc (ts : Z) : datetime := DateTime ts 0.

(** [timestamp.strftime(TIME_FORMAT_HA)]: the text names the wall-clock
    minute and the offset and nothing else; the pair stands for it. *)
Definition strftime (d : datetime) : Z * Z := (wall_clock d, utcoffset d).

(** [round(x, 2)] leaves an integer reading as it is. *)
Definition round2 (x : Z) : Z := x.

(** The truth value of [value_org]: neither [None] nor zero. *)
Definition truthy (value_org : option Z) : bool :=
  match value_org with
  | Some v => negb (v =? 0)
  | None => false
  end.

(** The local variables of [save_prediction] that its loop updates;
    [sp_value] is unbound ([None]) before the first row. *)
Record save_state := SaveState {
  sp_total : Z;
  sp_total_org : Z;
  sp_value : option Z;
  timeseries : gmap (Z * Z) Z;
  timeseries_org : gmap (Z * Z) Z
}.

(** What [set_state] receives: the state and the two attribute maps. *)
Record publication := Publication {
  pub_state : Z;
  pub_results : gmap (Z * Z) Z;
  pub_source : gmap (Z * Z) Z
}.

Section save_prediction.

Variable now : datetime.
Variables incrementing reset_daily : bool.
Variable days : Z.

(** Line 218: [diff], in minutes. *)
Definition realign_diff (row : forecast_row) : Z :=
  let ptimestamp := tz_localize_utc (pred_ds row) in
  instant ptimestamp - instant now.

(** Line 219: [timestamp], in the zone of [now]. *)
Definition published_timestamp (row : forecast_row) : datetime :=
  add_minutes now (realign_diff row).

(** Lines 226-227: the test that guards the daily reset. *)
Definition daily_reset (timestamp : datetime) : bool :=
  dt_leb timestamp now
  && (reset_daily && (hour timestamp =? 0) && (minute timestamp =? 0)).

(** The body of the [for] loop, lines 217-248; [diff.days] is the
    whole number of days below [diff]. *)
Definition save_row (st : save_state) (row : forecast_row) : save_state :=
  let diff := realign_diff row in
  let timestamp := published_timestamp row in
  let time := strftime timestamp in
  let value := pred_yhat1 row in
  let value_org := pred_y row in
  let '(total, total_org) :=
    if daily_reset timestamp then (0, 0)
    else (sp_total st, sp_total_org st) in
  let total := total + value in
  let total_org :=
    match value_org with
    | Some v => total_org + v
    | None => total_org
    end in
  if diff / 1440 <? - days then
    SaveState total total_org (Some value) (timeseries st)
              (timeseries_org st)
  else if incrementing then
    SaveState total total_org (Some value)
              (<[time := round2 total]> (timeseries st))
              (if truthy value_org
               then <[time := round2 total_org]> (timeseries_org st)
               else timeseries_org st)
  else
    SaveState total total_org (Some value)
              (<[time := round2 value]> (timeseries st))
              (if truthy value_org
               then <[time := round2 (default 0 value_org)]>
                      (timeseries_org st)
               else timeseries_org st).

Definition save_init : save_state := SaveState 0 0 None ∅ ∅.

Definition save_rows (pred : list forecast_row) : save_state :=
  foldl save_row save_init pred.

(** [save_prediction]: what is published, or [None] when [value] is
    read unbound (no forecast row, not [incrementing]). *)
Definition save_prediction (pred : list forecast_row)
  : option publication :=
  let st := save_rows pred in
  final ← (if incrementing then Some (sp_total st) else sp_value st);
  Some (Publication (round2 final) (timeseries st) (timeseries_org st)).

End save_prediction.

End Prophet.

(** ** Subtraction of a series *)

(** [subset.loc[subset["ds"] == ds]] *)
Definition loc_ds (subset : list row) (d : datetime) : list row :=
  List.filter (λ c, dt_eqb (ds c) d) subset.

(** The [for] loop of [subtract_set] over the rows left, with the frame
    [pruned] and the counter [count] built so far. *)
Fixpoint subtract_loop (incrementing : bool) (subset : list row)
    (rows : list row) (pruned : list row) (count : nat)
  : list row * nat :=
  match rows with
  | [] => (pruned, count)
  | r :: rows =>
    let value := y r in
    let '(car_value, count) :=
      match loc_ds subset (ds r) with
      | [] => (0, count)
      | c :: _ => (y c, S count)
      end in
    let value :=
      if incrementing then Z.max (value - car_value) 0
      else value - car_value in
    subtract_loop incrementing subset rows (pruned ++ [Row (ds r) value])
                  count
  end.

Definition subtract_set (dataset subset : list row) (now : datetime)
    (incrementing : bool) : list row :=
  fst (subtract_loop incrementing subset dataset [] 0%nat).

(** ** The database *)

Module Database.

(** What a call can raise: [[].tolist()] and a second row for a key. *)
Inductive exn := AttributeError | IntegrityError.

Inductive result (A : Type) :=
| Ok (a : A)
| Raise (e : exn).
Arguments Ok {A} a.
Arguments Raise {A} e.

(** A table [(timestamp TEXT PRIMARY KEY, value REAL)], and the frame
    that [get_history] reads from it: rows of a text and a value. *)
Definition stored := (string * Z)%type.

(** [INSERT INTO table (timestamp, value) VALUES (...)]: a row whose key
    the table holds already violates the primary key. *)
Definition insert_row (table : list stored) (timestamp : string) (value : Z)
  : result (list stored) :=
  if bool_decide (timestamp ∈ table.*1) then Raise IntegrityError
  else Ok (table ++ [(timestamp, value)]).

Section store_history.

(** [str] of a timestamp of the frame. *)
Variable str : datetime → string.

(** The [for] loop of [store_history]: [prev_values] is fixed before
    the loop; [table] holds the rows written so far. *)
Fixpoint store_loop (prev_values : list string) (history : list row)
    (table prev : list stored) (added_rows : nat)
  : result (list stored * list stored * nat) :=
  match history with
  | [] => Ok (table, prev, added_rows)
  | r :: history =>
    let timestamp := str (ds r) in
    let value := y r in
    if bool_decide (timestamp ∈ prev_values) then
      store_loop prev_values history table prev added_rows
    else
      match insert_row table timestamp value with
      | Raise e => Raise e
      | Ok table =>
        store_loop prev_values history table
                   (prev ++ [(timestamp, value)]) (S added_rows)
      end
  end.

(** [store_history]: the table after the commit and the frame
    returned.  Without [prev] the list [[]] has no [tolist]. *)
Definition store_history (table : list stored) (history : list row)
    (prev : option (list stored))
  : result (list stored * list stored) :=
  match prev with
  | None => Raise AttributeError
  | Some prev =>
    match store_loop prev.*1 history table prev 0%nat with
    | Raise e => Raise e
    | Ok (table, prev, _) => Ok (table, prev)
    end
  end.

End store_history.

End Database.

(** ** Notions that the statements use *)

(** A datetime in UTC, and a sample whose state and timestamp parse. *)
Definition utc (m : Z) : datetime := DateTime m 0.
Definition reading (t v : Z) : sample := Sample (Some v) (Some (utc t)).

(** The last value parsed among the samples [l]. *)
Definition seen (l : list sample) : option Z := last (omap state l).

(** In the words of the specification: the latest raw value whose
    timestamp is at or before [t]. *)
Definition latest_raw_value (new_data : list sample) (t : datetime)
  : option Z :=
  last (omap (λ s, ts ← last_updated s;
                   v ← state s;
                   if dt_leb ts t then Some v else None) new_data).

(** The [k]-th tick of the walk: the hour of [start_time] and [k]
    periods. *)
Definition tick (period : Z) (start_time : datetime) (k : nat) : datetime :=
  add_minutes (replace_minute0 start_time) (Z.of_nat k * period).

(** What the loop keeps of the ticks: the rows stand at the first ticks,
    in order, and [timenow] is the next tick. *)
Definition ticks_inv (period : Z) (start_time : datetime)
    (st : Prophet.loop_state) : Prop :=
  Prophet.timenow st
  = tick period start_time (length (Prophet.dataset st)) ∧
  ds <$> Prophet.dataset st
  = tick period start_time <$> seq 0 (length (Prophet.dataset st)).

(** Ticks left up to [end_time], the tick [t] included. *)
Definition ticks_left (period : Z) (end_time t : datetime) : nat :=
  Z.to_nat ((instant end_time - instant t) / period + 1).

(** The row [r] samples [new_data]: it holds the value seen up to the
    first sample that has a seed and is not before the tick of [r]. *)
Definition samples_at (new_data : list sample) (r : row) : Prop :=
  ∃ i s ts,
    new_data !! i = Some s ∧ last_updated s = Some ts ∧
    instant (ds r) ≤ instant ts ∧
    seen (take (S i) new_data) = Some (y r) ∧
    ∀ j s', (j < i)%nat → new_data !! j = Some s' →
      seen (take (S j) new_data) = None ∨ Prophet.before_tick s' (ds r) = true.

(** What the loop keeps: [last_value] is the value seen so far, every
    sample passed has no seed or is before the tick, every row samples. *)
Definition sampling_inv (new_data : list sample) (st : Prophet.loop_state)
  : Prop :=
  (Prophet.last_value st = seen (take (Prophet.data_index st) new_data) ∨
   Prophet.last_value st = seen (take (S (Prophet.data_index st)) new_data)) ∧
  (∀ j s', (j < Prophet.data_index st)%nat → new_data !! j = Some s' →
     seen (take (S j) new_data) = None ∨
     Prophet.before_tick s' (Prophet.timenow st) = true) ∧
  (∀ r, r ∈ Prophet.dataset st → samples_at new_data r).


(** In the words of the specification: the value of the row of
    [secondary] with the timestamp [d], zero when there is none. *)
Definition secondary_value (secondary : list row) (d : datetime) : Z :=
  match List.find (λ c, dt_eqb (ds c) d) secondary with
  | Some c => y c
  | None => 0
  end.

(** In the words of the specification: the row of [primary] less the
    value of [secondary] at its timestamp, floored at zero when
    [incrementing]. *)
Definition subtracted (incrementing : bool) (secondary : list row) (r : row)
  : row :=
  let v := y r - secondary_value secondary (ds r) in
  Row (ds r) (if incrementing then Z.max v 0 else v).

(** The rows of [secondary] that match a row of [primary]. *)
Definition matched (primary secondary : list row) : list row :=
  List.filter (λ c, existsb (λ r, dt_eqb (ds c) (ds r)) primary) secondary.

(** The rows of [history] whose timestamp is not among [prev_values],
    as rows of the table. *)
Definition new_rows (str : datetime → string) (prev_values : list string)
    (history : list row) : list Database.stored :=
  (λ r, (str (ds r), y r)) <$> filter (λ r, str (ds r) ∉ prev_values) history.

(** [str] on the first timestamps of the epoch, as the examples need it. *)
Definition str_epoch (d : datetime) : string :=
  if instant d =? 0 then "1970-01-01 00:00:00+00:00"
  else if instant d =? 30 then "1970-01-01 00:30:00+00:00"
  else "1970-01-01 01:00:00+00:00".

(** ** Further functions of [predai.py] *)

(** [print_dataset], lines 331-338: the rows it prints; it breaks once
    [count] exceeds 24. *)
Fixpoint print_loop (rows : list row) (count : Z) : list row :=
  match rows with
  | [] => []
  | r :: rows =>
    let count := count + 1 in
    if count >? 24 then [r] else r :: print_loop rows count
  end.

Definition print_dataset (dataset : list row) : list row :=
  print_loop dataset 0.

(** [SELECT * FROM table ORDER BY timestamp]: the rows in the order of
    their keys as texts. *)
Fixpoint insert_by_timestamp (e : Database.stored)
    (rows : list Database.stored) : list Database.stored :=
  match rows with
  | [] => [e]
  | x :: rows' =>
    if String.leb e.1 x.1 then e :: rows
    else x :: insert_by_timestamp e rows'
  end.

Definition order_by_timestamp (table : list Database.stored)
  : list Database.stored :=
  foldr insert_by_timestamp [] table.

(** [Database.get_history], lines 297-306: the frame of the rows of the
    table, sorted by timestamp; row by row at the end of [history]. *)
Definition Database_get_history (table : list Database.stored)
  : list Database.stored :=
  foldl (λ history row, history ++ [(row.1, row.2)]) []
        (order_by_timestamp table).

(** Lines 355-358 of the module's [get_history]: the frame read from the
    table is the [prev] of [store_history]. *)
Definition get_history_store (str : datetime → string)
    (table : list Database.stored) (dataset : list row)
  : Database.result (list Database.stored * list Database.stored) :=
  let prev := Database_get_history table in
  Database.store_history str table dataset (Some prev).


(** ** Further notions that the statements use *)

(** The first value parsed among the samples [l]. *)
Definition first_seen (l : list sample) : option Z := head (omap state l).

(** The parsed values of the samples never fall. *)
Definition nondecreasing (new_data : list sample) : Prop :=
  ∀ i j si sj vi vj, (i ≤ j)%nat →
    new_data !! i = Some si → new_data !! j = Some sj →
    state si = Some vi → state sj = Some vj → vi ≤ vj.

(** The sum of the values of a frame. *)
Definition sum_y (rows : list row) : Z := foldr (λ r a, y r + a) 0 rows.


(** Line 238: the row is not older than [days]. *)
Definition retained (now : datetime) (days : Z) (row : Prophet.forecast_row)
  : bool :=
  negb (Prophet.realign_diff now row / 1440 <? - days).

(** The key under which a forecast row is published. *)
Definition time_key (now : datetime) (row : Prophet.forecast_row) : Z * Z :=
  Prophet.strftime (Prophet.published_timestamp now row).


(** * Properties of [process_dataset] *)

Section process_dataset_facts.

Import Prophet.

Variable period : Z.
Variable new_data : list sample.
Variables start_time end_time : datetime.
Variable incrementing : bool.
Variables max_increment reset_low reset_high : Z.

Local Abbreviation loop_body :=
  (loop_body period new_data incrementing max_increment reset_low reset_high).
Local Abbreviation loop_cond := (loop_cond new_data end_time).
Local Abbreviation loop :=
  (loop period new_data end_time incrementing max_increment reset_low
        reset_high).
Local Abbreviation update :=
  (update incrementing max_increment reset_low reset_high).
Local Abbreviation commit := (commit period incrementing).
Local Abbreviation ticks_left := (ticks_left period end_time).

(** Under the loop condition the body handles the current sample: it
    drops it for want of a seed, or commits the updated value. *)
Lemma loop_body_cases st :
  loop_cond st = true →
  ∃ s, new_data !! data_index st = Some s ∧
    ((update st s = None ∧ loop_body st = next_sample st) ∨
     (∃ v t, update st s = Some (v, t) ∧ loop_body st = commit st s v t)).
Proof.
  unfold Prophet.loop_cond. intros [_ Hi%Nat.ltb_lt]%andb_true_iff.
  destruct (lookup_lt_is_Some_2 _ _ Hi) as [s Hs].
  exists s. split; [done|]. unfold Prophet.loop_body. rewrite Hs.
  destruct (update st s) as [[v t]|]; [right; eauto | by left].
Qed.

Lemma ticks_left_step t :
  0 < period → dt_leb t end_time = true →
  ticks_left t = S (ticks_left (add_minutes t period)).
Proof.
  unfold ticks_left, dt_leb. intros Hp Hle%Z.leb_le. simpl.
  replace (instant end_time - (instant t + period))
    with (instant end_time - instant t + (-1) * period) by lia.
  rewrite Z.div_add by lia.
  assert (0 ≤ (instant end_time - instant t) / period)
    by (apply Z.div_pos; lia).
  lia.
Qed.

(** With a positive period the loop ends: a pass takes a sample or a
    tick away. *)
Lemma loop_terminates fuel st :
  0 < period →
  (length new_data - data_index st + ticks_left (timenow st) ≤ fuel)%nat →
  is_Some (loop fuel st).
Proof.
  intros Hp. revert st. induction fuel as [|fuel IH]; intros st Hm.
  - simpl. destruct (loop_cond st) eqn:Hc; [|eauto].
    apply andb_true_iff in Hc as [_ Hi%Nat.ltb_lt]. lia.
  - simpl. destruct (loop_cond st) eqn:Hc; [|eauto].
    apply IH.
    destruct (loop_body_cases st Hc) as (s & Hs & [[_ ->]|(v & t & _ & ->)]);
      apply andb_true_iff in Hc as [Ht Hi%Nat.ltb_lt].
    + simpl. lia.
    + unfold Prophet.commit. destruct (before_tick s (timenow st)); simpl.
      * lia.
      * rewrite (ticks_left_step _ Hp Ht) in Hm. lia.
Qed.

(** A property kept by every pass holds when the loop ends. *)
Lemma loop_invariant (I : loop_state → Prop) :
  (∀ st, loop_cond st = true → I st → I (loop_body st)) →
  ∀ fuel st st', I st → loop fuel st = Some st' →
    I st' ∧ loop_cond st' = false.
Proof.
  intros Hstep. induction fuel as [|fuel IH]; intros st st' HI; simpl;
    destruct (loop_cond st) eqn:Hc; try done.
  - intros [= <-]. done.
  - intros Hl. eapply IH; [|done]. by apply Hstep.
  - intros [= <-]. done.
Qed.

Lemma tick_next k :
  add_minutes (tick period start_time k) period
  = tick period start_time (S k).
Proof. unfold tick, add_minutes. simpl. f_equal. lia. Qed.

Lemma ticks_inv_body st :
  loop_cond st = true →
  ticks_inv period start_time st → ticks_inv period start_time (loop_body st).
Proof.
  intros Hc [Hnow Hrows].
  destruct (loop_body_cases st Hc) as (s & Hs & [[_ ->]|(v & t & _ & ->)]);
    [done|].
  unfold Prophet.commit. destruct (before_tick s (timenow st)); [done|].
  split; simpl.
  - rewrite length_app, Nat.add_1_r, Hnow. apply tick_next.
  - rewrite length_app, Nat.add_1_r, seq_S, !fmap_app, Hrows. simpl.
    by rewrite Hnow.
Qed.

End process_dataset_facts.

(** The rows that [process_dataset] returns stand at the first ticks. *)
Lemma process_dataset_ticks period new_data start_time end_time
    incrementing max_increment reset_low reset_high rows carry :
  Prophet.process_dataset period new_data start_time end_time
    incrementing max_increment reset_low reset_high = Some (rows, carry) →
  ds <$> rows = tick period start_time <$> seq 0 (length rows).
Proof.
  unfold Prophet.process_dataset. intros Hres.
  destruct (Prophet.loop _ _ _ _ _ _ _ _ _) as [st|] eqn:Hloop; [|done].
  simpl in Hres. injection Hres as <- <-.
  eapply (loop_invariant period new_data end_time incrementing max_increment
            reset_low reset_high (ticks_inv period start_time)) in Hloop
    as [[_ Hrows] _]; [done| |].
  - apply ticks_inv_body.
  - split; [|done]. unfold tick, add_minutes. simpl.
    change (Z.of_nat 0 * period) with 0. by rewrite Z.add_0_r.
Qed.

(** With a positive period [process_dataset] returns. *)
Lemma process_dataset_returns period new_data start_time end_time
  incrementing max_increment reset_low reset_high :
0 < period →
is_Some (Prophet.process_dataset period new_data start_time end_time
           incrementing max_increment reset_low reset_high).
Proof.
intros Hp. unfold Prophet.process_dataset.
destruct (loop_terminates period new_data end_time incrementing
            max_increment reset_low reset_high
            (Prophet.passes period new_data start_time end_time)
            (Prophet.init start_time) Hp) as [st Hst].
- unfold Prophet.passes, ticks_left. simpl. lia.
- rewrite Hst. simpl. eauto.
Qed.

(** ** Sampling without [incrementing] *)

Lemma seen_snoc l s :
  seen (l ++ [s]) = match state s with Some v => Some v | None => seen l end.
Proof.
  unfold seen. rewrite omap_app. simpl.
  destruct (state s); simpl; [by rewrite last_snoc | by rewrite app_nil_r].
Qed.

Lemma seen_take_S (new_data : list sample) i s :
  new_data !! i = Some s →
  seen (take (S i) new_data)
  = match state s with Some v => Some v | None => seen (take i new_data) end.
Proof. intros Hs. by rewrite (take_S_r _ _ _ Hs), seen_snoc. Qed.

Section sampling.

Import Prophet.

Variable period : Z.
Variable new_data : list sample.
Variable end_time : datetime.
Variables max_increment reset_low reset_high : Z.
Hypothesis period_pos : 0 < period.

Local Abbreviation loop_body :=
  (loop_body period new_data false max_increment reset_low reset_high).
Local Abbreviation update := (update false max_increment reset_low reset_high).

Local Abbreviation samples_at := (samples_at new_data).
Local Abbreviation sampling_inv := (sampling_inv new_data).

Lemma update_seen st s :
  new_data !! data_index st = Some s →
  (last_value st = seen (take (data_index st) new_data) ∨
   last_value st = seen (take (S (data_index st)) new_data)) →
  match update st s with
  | Some (v, t) => seen (take (S (data_index st)) new_data) = Some v
  | None => seen (take (S (data_index st)) new_data) = None
  end.
Proof.
  intros Hs Hlv. rewrite (seen_take_S _ _ _ Hs) in *.
  unfold Prophet.update, parse.
  destruct (state s) as [v|], (last_value st) as [lv|]; simpl; try done;
    destruct Hlv; congruence.
Qed.

Lemma before_tick_later s t :
  before_tick s t = true → before_tick s (add_minutes t period) = true.
Proof.
  unfold before_tick, dt_ltb. destruct (last_updated s); [|done]. simpl.
  rewrite !Z.ltb_lt. lia.
Qed.

Lemma sampling_inv_body st :
  loop_cond new_data end_time st = true →
  sampling_inv st → sampling_inv (loop_body st).
Proof.
  intros Hc (Hlv & Hpast & Hrows).
  destruct (loop_body_cases period new_data end_time false max_increment
              reset_low reset_high st Hc)
    as (s & Hs & [[Hu ->]|(v & t & Hu & ->)]);
    pose proof (update_seen st s Hs Hlv) as Hseen; rewrite Hu in Hseen.
  - (* no seed yet: the sample is dropped *)
    assert (last_value st = None) as Hnone.
    { revert Hu. unfold Prophet.update, parse.
      by destruct (state s), (last_value st). }
    split_and!; simpl.
    + left. congruence.
    + intros j s' Hj Hs'. destruct (decide (j = data_index st)) as [->|].
      * by left.
      * apply Hpast; [lia|done].
    + done.
  - unfold commit. destruct (before_tick s (timenow st)) eqn:Hb.
    + (* the sample is before the tick *)
      split_and!; simpl.
      * by left.
      * intros j s' Hj Hs'. destruct (decide (j = data_index st)) as [->|].
        -- right. congruence.
        -- apply Hpast; [lia|done].
      * done.
    + (* a row at the tick *)
      split_and!; simpl.
      * by right.
      * intros j s' Hj Hs'.
        destruct (Hpast j s' Hj Hs') as [?|?]; [by left|].
        right. by apply before_tick_later.
      * intros r [Hr|Hr%list_elem_of_singleton]%elem_of_app; [by apply Hrows|].
        subst r.
        unfold before_tick in Hb.
        destruct (last_updated s) as [ts|] eqn:Hts; [|done].
        exists (data_index st), s, ts. simpl.
        apply Z.ltb_ge in Hb. split_and!; try done.
Qed.

Lemma sampling_inv_init start_time : sampling_inv (init start_time).
Proof.
  split_and!; simpl.
  - by left.
  - intros; lia.
  - by intros r ?%elem_of_nil.
Qed.

End sampling.

(** C1, as the code has it.  Without [incrementing] and with a positive
    period, [process_dataset] returns; its rows stand at the first ticks
    of the walk, in order; and every row holds the value seen up to the
    first sample that has a seed and whose timestamp is at or after the
    tick of the row: an unparseable state is replaced by the last parsed
    value, and the value is taken from the sample at or after the tick,
    not from the latest sample at or before it. *)
Theorem process_dataset_samples_next period new_data start_time end_time
    max_increment reset_low reset_high :
  0 < period →
  ∃ rows carry,
    Prophet.process_dataset period new_data start_time end_time false
      max_increment reset_low reset_high = Some (rows, carry) ∧
    ds <$> rows = tick period start_time <$> seq 0 (length rows) ∧
    ∀ r, r ∈ rows → samples_at new_data r.
Proof.
  intros Hp.
  destruct (process_dataset_returns period new_data start_time end_time false
              max_increment reset_low reset_high Hp) as [[rows carry] Hres].
  exists rows, carry. split; [done|].
  split; [by eapply process_dataset_ticks|].
  unfold Prophet.process_dataset in Hres.
  destruct (Prophet.loop _ _ _ _ _ _ _ _ _) as [st|] eqn:Hloop; [|done].
  simpl in Hres. injection Hres as <- <-.
  eapply (loop_invariant period new_data end_time false max_increment
            reset_low reset_high (sampling_inv new_data)) in Hloop
    as [(_ & _ & Hrows) _].
  - done.
  - intros st0. by apply sampling_inv_body.
  - apply sampling_inv_init.
Qed.

Lemma process_dataset_samples_next_witness :
  0 < 30 ∧
  ∃ rows carry,
    Prophet.process_dataset 30 [reading 10 1; reading 50 2] (utc 10) (utc 50)
      false 0 0 0 = Some (rows, carry) ∧
    ds <$> rows = tick 30 (utc 10) <$> seq 0 (length rows) ∧
    ∀ r, r ∈ rows → samples_at [reading 10 1; reading 50 2] r.
Proof.
  split; [lia|].
  apply (process_dataset_samples_next 30 [reading 10 1; reading 50 2]
           (utc 10) (utc 50) 0 0 0).
  lia.
Defined.

(** C1 as stated fails: with samples at 00:10 (value 1) and 00:50 (value
    2) the row at 00:00 holds 1 although no sample is at or before it, and
    the row at 00:30 holds 2 although the latest sample at or before it
    holds 1. *)
Lemma process_dataset_not_forward_fill :
  Prophet.process_dataset 30 [reading 10 1; reading 50 2] (utc 10) (utc 50)
    false 0 0 0
  = Some ([Row (utc 0) 1; Row (utc 30) 2], 2) ∧
  latest_raw_value [reading 10 1; reading 50 2] (utc 0) = None ∧
  latest_raw_value [reading 10 1; reading 50 2] (utc 30) = Some 1.
Proof. by vm_compute. Qed.

(** C8, as the code has it.  When [end_time] is earlier than [start_time]
    truncated to the hour, [process_dataset] returns an empty frame (and
    the initial value 0), whatever the samples. *)
Theorem process_dataset_end_before_hour period new_data start_time end_time
    incrementing max_increment reset_low reset_high :
  dt_ltb end_time (replace_minute0 start_time) = true →
  Prophet.process_dataset period new_data start_time end_time incrementing
    max_increment reset_low reset_high = Some ([], 0).
Proof.
  intros Hlt%Z.ltb_lt. unfold Prophet.process_dataset.
  assert (Prophet.loop_cond new_data end_time (Prophet.init start_time)
          = false) as Hc.
  { unfold Prophet.loop_cond, dt_leb. simpl in *.
    apply andb_false_iff. left. apply Z.leb_gt. lia. }
  destruct (Prophet.passes _ _ _ _); simpl; by rewrite Hc.
Qed.

Lemma process_dataset_end_before_hour_witness :
  dt_ltb (utc 590) (replace_minute0 (utc 645)) = true ∧
  Prophet.process_dataset 30 [reading 650 4] (utc 645) (utc 590) false 0 0 0
  = Some ([], 0).
Proof.
  split; [reflexivity|].
  apply (process_dataset_end_before_hour 30 [reading 650 4] (utc 645)
           (utc 590) false 0 0 0).
  reflexivity.
Defined.

(** C8 as stated fails: with [start_time] 10:45 and [end_time] 10:30 the
    walk starts at 10:00, and a sample at 10:50 gives two rows. *)
Lemma process_dataset_end_before_start_rows :
  dt_ltb (utc 630) (utc 645) = true ∧
  Prophet.process_dataset 30 [reading 650 4] (utc 645) (utc 630) false 0 0 0
  = Some ([Row (utc 600) 4; Row (utc 630) 4], 4).
Proof. by vm_compute. Qed.

(** ** The running total of an [incrementing] sensor *)

Section accumulation.

Import Prophet.

Variables max_increment reset_low reset_high : Z.

Local Abbreviation is_reset := (is_reset reset_low reset_high).
Local Abbreviation is_spike := (is_spike max_increment).
Local Abbreviation update := (update true max_increment reset_low reset_high).

Lemma is_reset_iff v lv :
  is_reset v lv = true ↔ v < lv ∧ v < reset_low ∧ reset_high < lv.
Proof.
  unfold Prophet.is_reset.
  rewrite !andb_true_iff, !Z.ltb_lt, Z.gtb_ltb, Z.ltb_lt. tauto.
Qed.

Lemma is_spike_iff v lv :
  is_spike v lv = true ↔ max_increment ≠ 0 ∧ max_increment < Z.abs (v - lv).
Proof.
  unfold Prophet.is_spike.
  rewrite andb_true_iff, negb_true_iff, Z.eqb_neq, Z.gtb_ltb, Z.ltb_lt. tauto.
Qed.

Lemma update_incrementing st s v lv :
  parse st s = Some (v, lv) →
  update st s = Some (accumulate max_increment reset_low reset_high
                        (total st) v lv).
Proof. unfold Prophet.update. by intros ->. Qed.

(** C2, as the code has it.  In the branch without reset the total
    becomes [max (total + (value - last_value)) 0], [value] being the
    value after the spike filter: the sum is floored at zero, not the
    delta.  The total never falls below zero there, and a negative delta
    does reduce a positive total. *)
Theorem update_normal_total st s v lv :
  parse st s = Some (v, lv) →
  is_reset v lv = false →
  let v' := if is_spike v lv then lv else v in
  update st s = Some (v', Z.max (total st + v' - lv) 0) ∧
  0 ≤ Z.max (total st + v' - lv) 0 ∧
  (v' < lv → 0 < total st → Z.max (total st + v' - lv) 0 < total st).
Proof.
  intros Hp Hr v'. rewrite (update_incrementing _ _ _ _ Hp).
  unfold accumulate. rewrite Hr. fold v'. split_and!; [done|lia|lia].
Qed.

(** C3.  A sample is taken for a counter reset exactly when its value is
    strictly below the previous value and strictly below [reset_low] while
    the previous value is strictly above [reset_high]; the value itself is
    then added to the total.  Otherwise, and so when the value equals
    [reset_low] or the previous value equals [reset_high], the sample goes
    through the branch without reset.  For the readings 10, 12, 1, 3 with
    thresholds 2 and 8 the step from 12 to 1 adds 1. *)
Theorem update_reset st s v lv :
  parse st s = Some (v, lv) →
  (is_reset v lv = true ↔ v < lv ∧ v < reset_low ∧ reset_high < lv) ∧
  (v < lv ∧ v < reset_low ∧ reset_high < lv →
   update st s = Some (v, total st + v)) ∧
  (¬ (v < lv ∧ v < reset_low ∧ reset_high < lv) →
   let v' := if is_spike v lv then lv else v in
   update st s = Some (v', Z.max (total st + v' - lv) 0)) ∧
  (v = reset_low ∨ lv = reset_high → is_reset v lv = false) ∧
  Prophet.update true 0 2 8 (LoopState (utc 60) 2 12 0 (Some 12) [])
    (reading 60 1) = Some (1, 0 + 1) ∧
  process_dataset 30
    [reading 0 10; reading 30 12; reading 60 1; reading 90 3]
    (utc 0) (utc 90) true 0 2 8
  = Some ([Row (utc 0) 0; Row (utc 30) 2; Row (utc 60) 1; Row (utc 90) 2], 3).
Proof.
  intros Hp. rewrite (update_incrementing _ _ _ _ Hp). unfold accumulate.
  split_and!.
  - apply is_reset_iff.
  - intros Hr%is_reset_iff. by rewrite Hr.
  - intros Hr. destruct (is_reset v lv) eqn:E; [|done].
    by apply is_reset_iff in E.
  - intros Heq. apply not_true_is_false. intros Hr%is_reset_iff. lia.
  - reflexivity.
  - by vm_compute.
Qed.

(** C4.  A sample that is no reset and whose distance from the previous
    value exceeds a nonzero [max_increment] is handled as a sample that
    repeats the previous value: [value] becomes the previous value, the
    delta added under the floor is zero (a total that is not negative
    stays as it is), and the whole pass of the loop, the row it may emit
    included, is the pass for the repeated value.  For [max_increment] 5
    and the readings 10, 100, 11 the rows hold 0, 0 and 1. *)
Theorem update_spike period new_data st s v lv :
  new_data !! data_index st = Some s →
  parse st s = Some (v, lv) →
  is_reset v lv = false →
  max_increment ≠ 0 →
  max_increment < Z.abs (v - lv) →
  update st s = Some (lv, Z.max (total st + (lv - lv)) 0) ∧
  (0 ≤ total st → update st s = Some (lv, total st)) ∧
  loop_body period new_data true max_increment reset_low reset_high st
  = loop_body period
      (<[data_index st := Sample (Some lv) (last_updated s)]> new_data)
      true max_increment reset_low reset_high st ∧
  process_dataset 30 [reading 0 10; reading 30 100; reading 60 11]
    (utc 0) (utc 60) true 5 0 0
  = Some ([Row (utc 0) 0; Row (utc 30) 0; Row (utc 60) 1], 11).
Proof.
  intros Hs Hp Hr Hne Hgt.
  assert (is_spike v lv = true) as Hsp by by apply is_spike_iff.
  assert (update st s = Some (lv, Z.max (total st + (lv - lv)) 0)) as Hu.
  { rewrite (update_incrementing _ _ _ _ Hp). unfold accumulate.
    rewrite Hr, Hsp. do 2 f_equal. lia. }
  split_and!.
  - done.
  - intros Ht. rewrite Hu. do 2 f_equal. lia.
  - unfold Prophet.loop_body.
    rewrite list_lookup_insert_eq by by eapply lookup_lt_Some.
    rewrite Hs, Hu.
    set (s' := Sample (Some lv) (last_updated s)).
    assert (parse st s' = Some (lv, lv)) as Hp'.
    { revert Hp. unfold parse. simpl.
      destruct (state s), (last_value st); naive_solver. }
    rewrite (update_incrementing _ _ _ _ Hp'). unfold accumulate.
    assert (is_reset lv lv = false) as ->.
    { apply not_true_is_false. intros ?%is_reset_iff. lia. }
    replace (if is_spike lv lv then lv else lv) with lv
      by by destruct (is_spike lv lv).
    replace (total st + lv - lv) with (total st + (lv - lv)) by lia.
    done.
  - by vm_compute.
Qed.

End accumulation.

Lemma update_normal_total_witness :
  let st := Prophet.LoopState (utc 30) 2 15 5 (Some 15) [Row (utc 0) 0] in
  Prophet.parse st (reading 2 13) = Some (13, 15) ∧
  Prophet.is_reset 0 0 13 15 = false ∧
  Prophet.update true 0 0 0 st (reading 2 13) = Some (13, 3).
Proof.
  intros st. split; [reflexivity|]. split; [reflexivity|].
  apply (update_normal_total 0 0 0 st (reading 2 13) 13 15);
    reflexivity.
Defined.

(** C2 as stated fails: after the readings 10 and 15 the total is 5; the
    reading 13 is no reset and leaves 3, where a delta floored at zero
    would leave 5.  The row at 00:30 holds 3. *)
Lemma update_negative_delta_reduces_total :
  let st := Prophet.LoopState (utc 30) 2 15 5 (Some 15) [Row (utc 0) 0] in
  Prophet.parse st (reading 2 13) = Some (13, 15) ∧
  Prophet.is_reset 0 0 13 15 = false ∧
  Prophet.update true 0 0 0 st (reading 2 13) = Some (13, 3) ∧
  3 ≠ Prophet.total st + Z.max (13 - 15) 0 ∧
  Prophet.process_dataset 30
    [reading 0 10; reading 1 15; reading 2 13; reading 30 13]
    (utc 0) (utc 30) true 0 0 0
  = Some ([Row (utc 0) 0; Row (utc 30) 3], 13).
Proof. by vm_compute. Qed.

Lemma update_reset_witness :
  let st := Prophet.LoopState (utc 60) 2 12 0 (Some 12) [] in
  Prophet.parse st (reading 60 1) = Some (1, 12) ∧
  Prophet.update true 0 2 8 st (reading 60 1) = Some (1, 0 + 1).
Proof.
  intros st. split; [reflexivity|].
  destruct (update_reset 0 2 8 st (reading 60 1) 1 12 eq_refl)
    as (_ & Hreset & _).
  apply Hreset. lia.
Defined.

Lemma update_spike_witness :
  let new_data := [reading 0 10; reading 30 100; reading 60 11] in
  let st := Prophet.LoopState (utc 30) 1 10 0 (Some 10) [Row (utc 0) 0] in
  new_data !! Prophet.data_index st = Some (reading 30 100) ∧
  Prophet.parse st (reading 30 100) = Some (100, 10) ∧
  Prophet.is_reset 0 0 100 10 = false ∧
  5 ≠ 0 ∧ 5 < Z.abs (100 - 10) ∧
  Prophet.update true 5 0 0 st (reading 30 100) = Some (10, 0).
Proof.
  intros new_data st.
  split; [reflexivity|]. split; [reflexivity|]. split; [reflexivity|].
  split; [lia|]. split; [lia|].
  destruct (update_spike 5 0 0 30 new_data st (reading 30 100) 100 10)
    as (_ & Hkeep & _); [reflexivity|reflexivity|reflexivity|lia|lia|].
  apply Hkeep. simpl. lia.
Defined.

(** * Properties of [save_prediction] *)

(** Rows of a frame with distinct timestamps are told apart by them. *)
Lemma NoDup_fmap_eq {A B} (f : A → B) (l : list A) x x' :
  NoDup (f <$> l) → x ∈ l → x' ∈ l → f x = f x' → x = x'.
Proof.
  induction l as [|a l IH]; simpl; [by intros _ ?%elem_of_nil|].
  intros [Hnotin Hnd]%NoDup_cons [->|Hx]%elem_of_cons [->|Hx']%elem_of_cons
    Heq; [done| | |by apply IH].
  - destruct Hnotin. rewrite Heq. by apply list_elem_of_fmap_2.
  - destruct Hnotin. rewrite <- Heq. by apply list_elem_of_fmap_2.
Qed.

Section publication.

Import Prophet.

Variable now : datetime.
Variables incrementing reset_daily : bool.
Variable days : Z.

Local Abbreviation published_timestamp := (published_timestamp now).
Local Abbreviation save_row := (save_row now incrementing reset_daily days).
Local Abbreviation save_rows := (save_rows now incrementing reset_daily days).
Local Abbreviation save_prediction :=
  (save_prediction now incrementing reset_daily days).

(** C9.  The published timestamp is the instant of the forecast timestamp
    localized to UTC, whatever [now] is: [now + (ptimestamp - now)] gives
    [ptimestamp] back, shown in the zone of [now]. *)
Theorem published_timestamp_identity (now' : datetime) row :
  dt_eqb (published_timestamp row) (tz_localize_utc (pred_ds row)) = true ∧
  instant (published_timestamp row) = instant (tz_localize_utc (pred_ds row)) ∧
  instant (published_timestamp row)
  = instant (Prophet.published_timestamp now' row) ∧
  published_timestamp row = DateTime (pred_ds row) (utcoffset now).
Proof.
  unfold Prophet.published_timestamp, realign_diff, add_minutes, dt_eqb.
  simpl. split_and!; [apply Z.eqb_eq; lia|lia|lia|f_equal; lia].
Qed.

Lemma save_row_source st row :
  timeseries_org (save_row st row) = timeseries_org st ∨
  truthy (pred_y row) = true ∧
  ∃ v, timeseries_org (save_row st row)
       = <[strftime (published_timestamp row) := v]> (timeseries_org st).
Proof.
  unfold Prophet.save_row.
  destruct (daily_reset _ _ _); simpl;
    destruct (_ <? _); simpl; [by left| |by left|];
    destruct incrementing; simpl;
    destruct (truthy (pred_y row)); eauto.
Qed.

Lemma foldl_save_row_source pred : ∀ st k,
  timeseries_org st !! k = None →
  (∀ r, r ∈ pred → strftime (published_timestamp r) = k →
        truthy (pred_y r) = false) →
  timeseries_org (foldl save_row st pred) !! k = None.
Proof.
  induction pred as [|r pred IH]; intros st k Hk Hfalsy; simpl; [done|].
  apply IH.
  - destruct (save_row_source st r) as [->|(Ht & v & ->)]; [done|].
    rewrite lookup_insert_ne; [done|].
    intros Heq. rewrite (Hfalsy r) in Ht; [done|by left|done].
  - intros r' Hr'. apply Hfalsy. by right.
Qed.

Lemma save_rows_value pred :
  pred ≠ [] → is_Some (sp_value (save_rows pred)).
Proof.
  destruct pred as [|r pred _] using rev_ind; [done|]. intros _.
  unfold Prophet.save_rows. rewrite foldl_app. simpl.
  unfold Prophet.save_row.
  destruct (daily_reset _ _ _); simpl;
    destruct (_ <? _); simpl; destruct incrementing; simpl; eauto.
Qed.

Lemma strftime_published_inj r r' :
  strftime (published_timestamp r) = strftime (published_timestamp r') →
  pred_ds r = pred_ds r'.
Proof.
  unfold strftime, wall_clock, Prophet.published_timestamp, realign_diff.
  simpl. intros [= ?]. lia.
Qed.

(** C10.  A forecast row whose actual is the number zero leaves no entry
    in the published source map, with and without [incrementing]: its
    value is tested for truth, and zero is false. *)
Theorem save_prediction_zero_actual_omitted pred row :
  NoDup (pred_ds <$> pred) →
  row ∈ pred →
  pred_y row = Some 0 →
  ∃ p, save_prediction pred = Some p ∧
       pub_source p !! strftime (published_timestamp row) = None.
Proof.
  intros Hnd Hin Hy.
  assert (timeseries_org (save_rows pred)
          !! strftime (published_timestamp row) = None) as Hnone.
  { apply foldl_save_row_source; [done|].
    intros r Hr Hkey%strftime_published_inj.
    assert (r = row) as ->; [|by rewrite Hy].
    by eapply (NoDup_fmap_eq pred_ds pred). }
  assert (is_Some (if incrementing then Some (sp_total (save_rows pred))
                   else sp_value (save_rows pred))) as [final Hfinal].
  { destruct (save_rows_value pred) as [v Hv].
    - intros ->. by apply elem_of_nil in Hin.
    - rewrite Hv. by destruct incrementing. }
  unfold Prophet.save_prediction. rewrite Hfinal. simpl. eauto.
Qed.

(** C5, as the code has it.  With [reset_daily], a forecast row whose
    published timestamp is at midnight of the zone of [now] and at or
    before [now] starts both totals again from zero before its own values
    are added; a row at a midnight after [now] adds to the totals as any
    other row. *)
Theorem save_row_daily_reset st row :
  reset_daily = true →
  hour (published_timestamp row) = 0 →
  minute (published_timestamp row) = 0 →
  (instant (published_timestamp row) ≤ instant now →
   sp_total (save_row st row) = 0 + pred_yhat1 row ∧
   sp_total_org (save_row st row) = 0 + default 0 (pred_y row)) ∧
  (instant now < instant (published_timestamp row) →
   sp_total (save_row st row) = sp_total st + pred_yhat1 row ∧
   sp_total_org (save_row st row)
   = sp_total_org st + default 0 (pred_y row)).
Proof.
  intros Hrd Hh Hm. unfold Prophet.save_row, daily_reset, dt_leb.
  rewrite Hrd, Hh, Hm. simpl. split.
  - intros Hle%Z.leb_le. rewrite Hle. simpl.
    destruct (_ <? _), incrementing, (pred_y row); simpl; split; lia.
  - intros Hgt%Z.leb_gt. rewrite Hgt. simpl.
    destruct (_ <? _), incrementing, (pred_y row); simpl; split; lia.
Qed.

End publication.

Lemma save_row_daily_reset_witness :
  let now := utc 2880 in
  let row := Prophet.ForecastRow 1440 7 (Some 3) in
  let st := Prophet.SaveState 5 4 (Some 5) ∅ ∅ in
  hour (Prophet.published_timestamp now row) = 0 ∧
  minute (Prophet.published_timestamp now row) = 0 ∧
  Prophet.sp_total (Prophet.save_row now true true 7 st row) = 0 + 7 ∧
  Prophet.sp_total_org (Prophet.save_row now true true 7 st row) = 0 + 3.
Proof.
  intros now row st. split; [reflexivity|]. split; [reflexivity|].
  destruct (save_row_daily_reset now true true 7 st row)
    as [Hpast _]; [reflexivity|reflexivity|reflexivity|].
  apply Hpast. by vm_compute.
Defined.

(** C5 as stated fails: with [now] at midnight of day 0, the forecast row
    at midnight of day 1 does not start the total again: after the row of
    noon (5) and the row of midnight (7) the total is 12, and 12 is what
    is published for that midnight. *)
Lemma save_prediction_future_midnight :
  let now := utc 0 in
  let noon := Prophet.ForecastRow 720 5 None in
  let midnight := Prophet.ForecastRow 1440 7 None in
  hour (Prophet.published_timestamp now midnight) = 0 ∧
  minute (Prophet.published_timestamp now midnight) = 0 ∧
  Prophet.sp_total (Prophet.save_rows now true true 7 [noon; midnight]) = 12 ∧
  (Prophet.save_prediction now true true 7 [noon; midnight]
   ≫= λ p, Prophet.pub_results p
           !! Prophet.strftime (Prophet.published_timestamp now midnight))
  = Some 12.
Proof. by vm_compute. Qed.

Lemma save_prediction_zero_actual_omitted_witness :
  let now := utc 2880 in
  let pred := [Prophet.ForecastRow 720 5 (Some 4);
               Prophet.ForecastRow 1440 7 (Some 0);
               Prophet.ForecastRow 1470 1 (Some 2)] in
  let row := Prophet.ForecastRow 1440 7 (Some 0) in
  NoDup (Prophet.pred_ds <$> pred) ∧ row ∈ pred ∧
  ∃ p, Prophet.save_prediction now false false 7 pred = Some p ∧
       Prophet.pub_source p
       !! Prophet.strftime (Prophet.published_timestamp now row) = None.
Proof.
  intros now pred row.
  assert (NoDup (Prophet.pred_ds <$> pred)) as Hnd.
  { apply (bool_decide_unpack _). reflexivity. }
  assert (row ∈ pred) as Hin.
  { apply list_elem_of_further, list_elem_of_here. }
  split; [done|]. split; [done|].
  apply (save_prediction_zero_actual_omitted now false false 7 pred row);
    [done|done|reflexivity].
Defined.

(** * Properties of [subtract_set] *)

Lemma loc_ds_head subset d :
  match loc_ds subset d with [] => 0 | c :: _ => y c end
  = secondary_value subset d.
Proof.
  unfold loc_ds, secondary_value.
  induction subset as [|c subset IH]; simpl; [done|].
  by destruct (dt_eqb (ds c) d).
Qed.

Lemma subtract_loop_rows incrementing subset rows : ∀ pruned count,
  fst (subtract_loop incrementing subset rows pruned count)
  = pruned ++ (subtracted incrementing subset <$> rows).
Proof.
  induction rows as [|r rows IH]; intros pruned count; simpl.
  - by rewrite app_nil_r.
  - pose proof (loc_ds_head subset (ds r)) as Hcar.
    destruct (loc_ds subset (ds r)) as [|c ?]; rewrite IH, <- app_assoc;
      simpl; unfold subtracted; by rewrite <- Hcar.
Qed.

Lemma secondary_value_matched primary subset r :
  r ∈ primary →
  secondary_value (matched primary subset) (ds r)
  = secondary_value subset (ds r).
Proof.
  intros Hr. unfold secondary_value, matched.
  induction subset as [|c subset IH]; simpl; [done|].
  destruct (dt_eqb (ds c) (ds r)) eqn:Hc.
  - assert (existsb (λ r0, dt_eqb (ds c) (ds r0)) primary = true) as ->.
    { apply existsb_exists. exists r. by rewrite <- list_elem_of_In. }
    simpl. by rewrite Hc.
  - destruct (existsb _ primary); simpl; [by rewrite Hc|done].
Qed.

(** C7.  [subtract_set] returns the rows of the primary series, in its
    order and with its timestamps, each value less the value of the first
    secondary row with the same timestamp (less zero when there is none),
    floored at zero when [incrementing]; secondary rows that match no
    primary row change nothing; and [{t1:10, t2:20}] less [{t1:3}] is
    [{t1:7, t2:20}]. *)
Theorem subtract_set_rows dataset subset now incrementing :
  subtract_set dataset subset now incrementing
  = subtracted incrementing subset <$> dataset ∧
  length (subtract_set dataset subset now incrementing) = length dataset ∧
  ds <$> subtract_set dataset subset now incrementing = ds <$> dataset ∧
  subtract_set dataset (matched dataset subset) now incrementing
  = subtract_set dataset subset now incrementing ∧
  subtract_set [Row (utc 1) 10; Row (utc 2) 20] [Row (utc 1) 3] now true
  = [Row (utc 1) 7; Row (utc 2) 20].
Proof.
  assert (∀ sub, subtract_set dataset sub now incrementing
                 = subtracted incrementing sub <$> dataset) as Hmap.
  { intros sub. unfold subtract_set. by rewrite subtract_loop_rows. }
  split_and!.
  - apply Hmap.
  - by rewrite Hmap, length_fmap.
  - rewrite Hmap, <- list_fmap_compose. done.
  - rewrite !Hmap. apply list_fmap_ext. intros i r Hr.
    unfold subtracted.
    by rewrite (secondary_value_matched dataset subset r)
      by by eapply list_elem_of_lookup_2.
  - reflexivity.
Qed.

(** * Properties of [Database.store_history] *)

(** A table with distinct keys holds one row for each of its keys. *)
Lemma one_row_per_key (table : list Database.stored) k :
  NoDup table.*1 → k ∈ table.*1 →
  length (filter (λ e, e.1 = k) table) = 1%nat.
Proof.
  induction table as [|[k' v] table IH]; simpl; [by intros _ ?%elem_of_nil|].
  intros [Hnotin Hnd]%NoDup_cons Hin.
  destruct (decide (k' = k)) as [->|Hne].
  - rewrite filter_cons_True by done. simpl. f_equal.
    apply length_zero_iff_nil, elem_of_nil_inv.
    intros [k2 v2] [Heq Hin2]%list_elem_of_filter. simpl in *. subst k2.
    apply Hnotin, list_elem_of_fmap. by exists (k, v2).
  - rewrite filter_cons_False by done.
    apply IH; [done|]. by apply elem_of_cons in Hin as [?|?].
Qed.

Section store_history_facts.

Import Database.

Variable str : datetime → string.

Local Abbreviation store_loop := (store_loop str).
Local Abbreviation store_history := (store_history str).

Lemma new_rows_cons prev_values r history :
  new_rows str prev_values (r :: history)
  = if decide (str (ds r) ∈ prev_values) then new_rows str prev_values history
    else (str (ds r), y r) :: new_rows str prev_values history.
Proof.
  unfold new_rows. rewrite filter_cons.
  destruct (decide (str (ds r) ∈ prev_values)) as [Hin|Hnotin].
  - rewrite decide_False; [done|]. by intros ?.
  - by rewrite decide_True.
Qed.

Lemma new_rows_keys prev_values history k :
  k ∈ (new_rows str prev_values history).*1 →
  (k ∉ prev_values) ∧ k ∈ ((λ r, str (ds r)) <$> history).
Proof.
  unfold new_rows. rewrite <- list_fmap_compose.
  intros (r & -> & [Hnotin Hr]%list_elem_of_filter)%list_elem_of_fmap.
  split; [done|]. apply list_elem_of_fmap. by exists r.
Qed.

Lemma new_rows_NoDup prev_values history :
  NoDup ((λ r, str (ds r)) <$> history) →
  NoDup (new_rows str prev_values history).*1.
Proof.
  induction history as [|r history IH]; [by intros; constructor|].
  rewrite fmap_cons. intros [Hnotin Hnd]%NoDup_cons.
  rewrite new_rows_cons. case_decide; [by apply IH|].
  rewrite fmap_cons. apply NoDup_cons. split; [|by apply IH].
  by intros [_ ?]%new_rows_keys.
Qed.

(** The loop writes the new rows, as long as none of them is in the
    table and their timestamps differ. *)
Lemma store_loop_new_rows prev_values history : ∀ table prev added_rows,
  NoDup ((λ r, str (ds r)) <$> history) →
  (∀ k, k ∈ (new_rows str prev_values history).*1 → k ∉ table.*1) →
  store_loop prev_values history table prev added_rows
  = Ok (table ++ new_rows str prev_values history,
        prev ++ new_rows str prev_values history,
        (added_rows + length (new_rows str prev_values history))%nat).
Proof.
  induction history as [|r history IH]; intros table prev added_rows.
  - intros _ _. simpl. by rewrite !app_nil_r, Nat.add_0_r.
  - rewrite fmap_cons. intros [Hnotin Hnd]%NoDup_cons Hfresh.
    rewrite new_rows_cons in *. simpl.
    destruct (decide (str (ds r) ∈ prev_values)) as [Hin|Hnew].
    + rewrite bool_decide_eq_true_2 by done. by apply IH.
    + rewrite bool_decide_eq_false_2 by done.
      unfold insert_row.
      rewrite bool_decide_eq_false_2 by (apply Hfresh; by left).
      rewrite IH; [|done|].
      * rewrite <- !app_assoc. simpl. do 3 f_equal. lia.
      * intros k Hk. rewrite fmap_app. simpl.
        intros [Hin|Heq%list_elem_of_singleton]%elem_of_app.
        -- by apply (Hfresh k); [right|].
        -- subst k. apply new_rows_keys in Hk as [_ ?]. done.
Qed.

(** C6, as the code has it.  [store_history] writes no row whose
    timestamp is in [prev]; it absorbs no conflict.  When [prev] lists
    every timestamp of the table and the timestamps of the candidate
    history differ from one another, the call returns: the table and
    [prev] gain the rows whose timestamps are not in [prev], the keys of
    the table stay distinct, and for a candidate timestamp that the table
    held already the table keeps the one row it had. *)
Theorem store_history_skips_known table history prev :
  NoDup table.*1 →
  (∀ k, k ∈ table.*1 → k ∈ prev.*1) →
  NoDup ((λ r, str (ds r)) <$> history) →
  store_history table history (Some prev)
  = Ok (table ++ new_rows str prev.*1 history,
        prev ++ new_rows str prev.*1 history) ∧
  NoDup (table ++ new_rows str prev.*1 history).*1 ∧
  ∀ r, r ∈ history → str (ds r) ∈ table.*1 →
    filter (λ e, e.1 = str (ds r)) (table ++ new_rows str prev.*1 history)
    = filter (λ e, e.1 = str (ds r)) table ∧
    length (filter (λ e, e.1 = str (ds r))
              (table ++ new_rows str prev.*1 history)) = 1%nat.
Proof.
  intros Htable Hknown Hhistory.
  assert (∀ k, k ∈ (new_rows str prev.*1 history).*1 → k ∉ table.*1)
    as Hfresh.
  { intros k [Hnew _]%new_rows_keys Hin. by apply Hnew, Hknown. }
  assert (NoDup (table ++ new_rows str prev.*1 history).*1) as Hnd.
  { rewrite fmap_app. apply NoDup_app. split_and!; [done| |].
    - intros k Hin Hnew. by apply (Hfresh k).
    - by apply new_rows_NoDup. }
  split_and!; [|done|].
  - unfold Database.store_history.
    by rewrite store_loop_new_rows.
  - intros r Hr Hin. split.
    + rewrite filter_app.
      rewrite (elem_of_nil_inv (filter _ (new_rows str prev.*1 history)));
        [by rewrite app_nil_r|].
      intros [k v] [Heq Hnew]%list_elem_of_filter. simpl in Heq. subst k.
      apply (Hfresh (str (ds r))); [|done].
      apply list_elem_of_fmap. by exists (str (ds r), v).
    + apply one_row_per_key; [done|].
      rewrite fmap_app. apply elem_of_app. by left.
Qed.

End store_history_facts.

Lemma store_history_skips_known_witness :
  let table := [("1970-01-01 00:00:00+00:00"%string, 5)] in
  let history := [Row (utc 0) 5; Row (utc 30) 6] in
  NoDup table.*1 ∧
  (∀ k, k ∈ table.*1 → k ∈ table.*1) ∧
  NoDup ((λ r, str_epoch (ds r)) <$> history) ∧
  Database.store_history str_epoch table history (Some table)
  = Database.Ok
      (table ++ [("1970-01-01 00:30:00+00:00"%string, 6)],
       table ++ [("1970-01-01 00:30:00+00:00"%string, 6)]).
Proof.
  intros table history.
  assert (NoDup table.*1) as Htable.
  { apply (bool_decide_unpack _). reflexivity. }
  assert (NoDup ((λ r, str_epoch (ds r)) <$> history)) as Hhistory.
  { apply (bool_decide_unpack _). reflexivity. }
  split; [done|]. split; [done|]. split; [done|].
  destruct (store_history_skips_known str_epoch table history table)
    as (Hres & _); [done|done|done|].
  rewrite Hres. reflexivity.
Defined.

(** C6 as stated fails: the table holds the timestamp of the first
    candidate row and [prev] does not list it (an empty frame); the write
    violates the primary key and the call raises. *)
Lemma store_history_conflict_raises :
  let table := [("1970-01-01 00:00:00+00:00"%string, 5)] in
  let history := [Row (utc 0) 5; Row (utc 30) 6] in
  str_epoch (ds (Row (utc 0) 5)) ∈ table.*1 ∧
  Database.store_history str_epoch table history (Some [])
  = Database.Raise Database.IntegrityError.
Proof. split; [by left|reflexivity]. Qed.

(** * Further properties of [process_dataset] *)

Section process_dataset_edges.

Import Prophet.

Variable period : Z.
Variable new_data : list sample.
Variables start_time end_time : datetime.
Variable incrementing : bool.
Variables max_increment reset_low reset_high : Z.

Local Abbreviation loop_body :=
  (loop_body period new_data incrementing max_increment reset_low reset_high).
Local Abbreviation loop_cond := (loop_cond new_data end_time).
Local Abbreviation loop :=
  (loop period new_data end_time incrementing max_increment reset_low
        reset_high).
Local Abbreviation update :=
  (update incrementing max_increment reset_low reset_high).
Local Abbreviation process_dataset :=
  (process_dataset period new_data start_time end_time incrementing
                   max_increment reset_low reset_high).

(** Without a parsed state the loop only walks along the samples. *)
Lemma loop_unseeded t0 fuel : ∀ idx,
  (∀ s, s ∈ new_data → state s = None) →
  (length new_data - idx ≤ fuel)%nat →
  ∃ idx', loop fuel (LoopState t0 idx 0 0 None [])
          = Some (LoopState t0 idx' 0 0 None []).
Proof.
  induction fuel as [|fuel IH]; intros idx Hnone Hfuel; simpl;
    destruct (loop_cond _) eqn:Hc; eauto.
  - apply andb_true_iff in Hc as [_ Hi%Nat.ltb_lt]. simpl in Hi. lia.
  - destruct (loop_body_cases period new_data end_time incrementing
                max_increment reset_low reset_high _ Hc)
      as (s & Hs & [[_ ->]|(v & t & Hu & _)]).
    + apply andb_true_iff in Hc as [_ Hi%Nat.ltb_lt]. simpl in Hi.
      apply IH; [done|simpl; lia].
    + simpl in Hs. apply list_elem_of_lookup_2, Hnone in Hs.
      unfold Prophet.update, parse in Hu. simpl in Hu. by rewrite Hs in Hu.
Qed.

(** X1.  When no sample has a state that parses (so for an empty
    history), [process_dataset] returns the empty frame and the value 0,
    whatever the period, the window and the mode. *)
Theorem process_dataset_unseeded :
  (∀ s, s ∈ new_data → state s = None) →
  process_dataset = Some ([], 0).
Proof.
  intros Hnone. unfold Prophet.process_dataset, init.
  destruct (loop_unseeded (replace_minute0 start_time)
              (passes period new_data start_time end_time) 0%nat Hnone)
    as [idx' ->]; [unfold passes; lia|done].
Qed.

(** X5.  With a period of zero the loop does not end once a row can be
    emitted: when the first tick is not after [end_time] and the first
    sample parses and is not before the first tick, no number of passes
    is enough, and [process_dataset] has no result. *)
Theorem process_dataset_zero_period_never_ends s ts :
  period = 0 →
  new_data !! 0%nat = Some s →
  is_Some (state s) →
  last_updated s = Some ts →
  instant (replace_minute0 start_time) ≤ instant ts →
  instant (replace_minute0 start_time) ≤ instant end_time →
  (∀ fuel, loop fuel (init start_time) = None) ∧
  process_dataset = None.
Proof.
  intros Hp Hs [v Hv] Hts Hle Hend.
  assert (∀ fuel st, data_index st = 0%nat →
            timenow st = replace_minute0 start_time →
            loop fuel st = None) as Hloop.
  { induction fuel as [|fuel IH]; intros st Hidx Hnow; simpl.
    - unfold Prophet.loop_cond, dt_leb. rewrite Hidx, Hnow.
      apply lookup_lt_Some in Hs.
      rewrite (proj2 (Z.leb_le _ _) Hend), (proj2 (Nat.ltb_lt _ _) Hs).
      done.
    - assert (loop_cond st = true) as Hc.
      { unfold Prophet.loop_cond, dt_leb. rewrite Hidx, Hnow.
        apply lookup_lt_Some in Hs.
        by rewrite (proj2 (Z.leb_le _ _) Hend), (proj2 (Nat.ltb_lt _ _) Hs). }
      rewrite Hc.
      destruct (loop_body_cases period new_data end_time incrementing
                  max_increment reset_low reset_high st Hc)
        as (s' & Hs' & [[Hu _]|(v' & t & _ & ->)]).
      + rewrite Hidx, Hs in Hs'. injection Hs' as <-.
        unfold Prophet.update, parse in Hu. rewrite Hv in Hu.
        by destruct (last_value st).
      + rewrite Hidx, Hs in Hs'. injection Hs' as <-.
        apply IH; unfold commit, before_tick, dt_ltb;
          rewrite Hts, Hnow, (proj2 (Z.ltb_ge _ _) Hle); simpl; [done|].
        unfold add_minutes, replace_minute0. simpl. f_equal. lia. }
  split.
  - intros fuel. by apply Hloop.
  - unfold Prophet.process_dataset. by rewrite Hloop.
Qed.

End process_dataset_edges.

Lemma process_dataset_unseeded_witness :
  (∀ s, s ∈ [Sample None (Some (utc 5)); Sample None None] →
        state s = None) ∧
  Prophet.process_dataset 30 [Sample None (Some (utc 5)); Sample None None]
    (utc 5) (utc 65) true 0 0 0 = Some ([], 0).
Proof.
  assert (∀ s, s ∈ [Sample None (Some (utc 5)); Sample None None] →
               state s = None) as Hnone.
  { intros s Hs. repeat (apply elem_of_cons in Hs as [->|Hs]; [done|]).
    by apply elem_of_nil in Hs. }
  split; [done|].
  by apply (process_dataset_unseeded 30 _ (utc 5) (utc 65) true 0 0 0).
Defined.

Lemma process_dataset_zero_period_never_ends_witness :
  (0 : Z) = 0 ∧
  [reading 650 4] !! 0%nat = Some (reading 650 4) ∧
  is_Some (state (reading 650 4)) ∧
  Prophet.process_dataset 0 [reading 650 4] (utc 645) (utc 650) false 0 0 0
  = None.
Proof.
  split; [done|]. split; [done|]. split; [by eexists|].
  destruct (process_dataset_zero_period_never_ends 0 [reading 650 4]
              (utc 645) (utc 650) false 0 0 0 (reading 650 4) (utc 650))
    as [_ Hnone]; try done; simpl; lia.
Defined.

Section process_dataset_rows.

Import Prophet.

Variable period : Z.
Variable new_data : list sample.
Variables start_time end_time : datetime.
Variable incrementing : bool.
Variables max_increment reset_low reset_high : Z.

Local Abbreviation loop_body :=
  (loop_body period new_data incrementing max_increment reset_low reset_high).
Local Abbreviation loop_cond := (loop_cond new_data end_time).
Local Abbreviation process_dataset :=
  (process_dataset period new_data start_time end_time incrementing
                   max_increment reset_low reset_high).

(** What holds of the final state holds of the result. *)
Lemma process_dataset_invariant (I : loop_state → Prop) :
  0 < period →
  I (init start_time) →
  (∀ st, loop_cond st = true → I st → I (loop_body st)) →
  ∃ st, process_dataset = Some (dataset st, value st) ∧ I st ∧
        loop_cond st = false ∧
        Prophet.loop period new_data end_time incrementing max_increment
          reset_low reset_high (passes period new_data start_time end_time)
          (init start_time) = Some st.
Proof.
  intros Hp Hinit Hstep.
  destruct (process_dataset_returns period new_data start_time end_time
              incrementing max_increment reset_low reset_high Hp)
    as [res Hres].
  unfold Prophet.process_dataset in *.
  destruct (Prophet.loop _ _ _ _ _ _ _ _ _) as [st|] eqn:Hloop; [|done].
  exists st.
  edestruct (loop_invariant period new_data end_time incrementing
               max_increment reset_low reset_high I) as [HI Hc];
    [exact Hstep|exact Hinit|exact Hloop|].
  done.
Qed.

Lemma rows_in_window_body st :
  loop_cond st = true →
  (∀ r, r ∈ dataset st → instant (ds r) ≤ instant end_time) →
  ∀ r, r ∈ dataset (loop_body st) → instant (ds r) ≤ instant end_time.
Proof.
  intros Hc Hrows.
  destruct (loop_body_cases period new_data end_time incrementing
              max_increment reset_low reset_high st Hc)
    as (s & Hs & [[_ ->]|(v & t & _ & ->)]); [done|].
  unfold commit. destruct (before_tick s (timenow st)); [done|]. simpl.
  intros r [Hr|Hr%list_elem_of_singleton]%elem_of_app; [by apply Hrows|].
  subst r. simpl.
  apply andb_true_iff in Hc as [Hle _]. by apply Z.leb_le in Hle.
Qed.

Lemma tick_inj k k' :
  0 < period →
  tick period start_time k = tick period start_time k' → k = k'.
Proof. unfold tick, add_minutes. intros Hp [= Heq]. nia. Qed.

(** X2.  With a positive period [process_dataset] returns a frame of
    uniform cadence, in both modes: the [k]-th row stands at the hour of
    [start_time] plus [k] periods and not after [end_time], no timestamp
    occurs twice, and there are no more rows than ticks up to
    [end_time]. *)
Theorem process_dataset_uniform :
  0 < period →
  ∃ rows carry,
    process_dataset = Some (rows, carry) ∧
    (∀ k r, rows !! k = Some r →
       ds r = tick period start_time k ∧
       instant (ds r) ≤ instant end_time) ∧
    NoDup (ds <$> rows) ∧
    (length rows
     ≤ ticks_left period end_time (replace_minute0 start_time))%nat.
Proof.
  intros Hp.
  destruct (process_dataset_invariant
              (λ st, ticks_inv period start_time st ∧
                     ∀ r, r ∈ dataset st →
                          instant (ds r) ≤ instant end_time) Hp)
    as (st & Hres & [[_ Hticks] Hwin] & _).
  { split; [|by intros r ?%elem_of_nil].
    split; [|done]. unfold tick, add_minutes. simpl.
    change (Z.of_nat 0 * period) with 0. by rewrite Z.add_0_r. }
  { intros st0 Hc [Ht Hw]. split.
    - by eapply ticks_inv_body.
    - by apply rows_in_window_body. }
  exists (dataset st), (value st).
  assert (∀ k r, dataset st !! k = Some r →
            ds r = tick period start_time k ∧
            instant (ds r) ≤ instant end_time) as Hrows.
  { intros k r Hr. split; [|by eapply Hwin, list_elem_of_lookup_2].
    assert ((ds <$> dataset st) !! k = Some (ds r)) as Hk
      by by rewrite list_lookup_fmap, Hr.
    rewrite Hticks, list_lookup_fmap in Hk.
    apply lookup_lt_Some in Hr.
    rewrite lookup_seq_lt in Hk by done. simpl in Hk. congruence. }
  split_and!; [done|done| |].
  - rewrite Hticks. apply NoDup_fmap_2_strong; [|apply NoDup_seq].
    intros k k' _ _. by apply tick_inj.
  - destruct (dataset st) as [|r0 rows0] eqn:Hd using rev_ind; [simpl; lia|].
    clear IHrows0.
    destruct (Hrows (length rows0) r0) as [Hds Hle].
    { by rewrite lookup_app_r, Nat.sub_diag by done. }
    rewrite Hds in Hle. unfold tick, add_minutes in Hle. simpl in Hle.
    rewrite length_app. simpl. unfold ticks_left.
    assert (Z.of_nat (length rows0)
            ≤ (instant end_time - instant (replace_minute0 start_time))
              / period) by (apply Z.div_le_lower_bound; simpl; lia).
    lia.
Qed.

(** X3.  With [incrementing] no row of the frame is negative, whatever
    the readings, the thresholds and the spike filter. *)
Theorem process_dataset_incrementing_nonneg :
  0 < period →
  incrementing = true →
  ∃ rows carry,
    process_dataset = Some (rows, carry) ∧ ∀ r, r ∈ rows → 0 ≤ y r.
Proof.
  intros Hp Hinc.
  destruct (process_dataset_invariant
              (λ st, ∀ r, r ∈ dataset st → 0 ≤ y r) Hp)
    as (st & Hres & Hrows & _).
  { by intros r ?%elem_of_nil. }
  { intros st0 Hc Hrows.
    destruct (loop_body_cases period new_data end_time incrementing
                max_increment reset_low reset_high st0 Hc)
      as (s & Hs & [[_ ->]|(v & t & _ & ->)]); [done|].
    unfold commit. destruct (before_tick s (timenow st0)); [done|]. simpl.
    intros r [Hr|Hr%list_elem_of_singleton]%elem_of_app; [by apply Hrows|].
    subst r. rewrite Hinc. simpl. lia. }
  eauto.
Qed.

End process_dataset_rows.

Lemma process_dataset_uniform_witness :
  0 < 30 ∧
  ∃ rows carry,
    Prophet.process_dataset 30 [reading 10 1; reading 50 2] (utc 10) (utc 50)
      true 0 0 0 = Some (rows, carry) ∧
    (∀ k r, rows !! k = Some r →
       ds r = tick 30 (utc 10) k ∧ instant (ds r) ≤ instant (utc 50)) ∧
    NoDup (ds <$> rows) ∧
    (length rows ≤ ticks_left 30 (utc 50) (replace_minute0 (utc 10)))%nat.
Proof.
  split; [lia|].
  apply (process_dataset_uniform 30 [reading 10 1; reading 50 2] (utc 10)
           (utc 50) true 0 0 0).
  lia.
Defined.

Lemma process_dataset_incrementing_nonneg_witness :
  0 < 30 ∧
  ∃ rows carry,
    Prophet.process_dataset 30 [reading 0 10; reading 1 (-5); reading 30 2]
      (utc 0) (utc 30) true 0 0 0 = Some (rows, carry) ∧
    ∀ r, r ∈ rows → 0 ≤ y r.
Proof.
  split; [lia|].
  apply (process_dataset_incrementing_nonneg 30
           [reading 0 10; reading 1 (-5); reading 30 2] (utc 0) (utc 30)
           true 0 0 0); [lia|reflexivity].
Defined.

(** ** A counter that never falls *)

Lemma sum_y_snoc rows r : sum_y (rows ++ [r]) = sum_y rows + y r.
Proof.
  unfold sum_y. induction rows as [|r0 rows IH]; simpl; [lia|].
  rewrite IH. lia.
Qed.

Lemma seen_Some_lookup (l : list sample) i v :
  seen (take i l) = Some v →
  ∃ j s, (j < i)%nat ∧ l !! j = Some s ∧ state s = Some v.
Proof.
  intros Hlast%last_Some_elem_of.
  apply list_elem_of_omap in Hlast as (s & Hs & Hv).
  apply list_elem_of_lookup_1 in Hs as [j Hj].
  apply lookup_take_Some in Hj as [Hj Hlt]. eauto.
Qed.

Lemma seen_None_first (l : list sample) i s v :
  seen (take i l) = None → l !! i = Some s → state s = Some v →
  first_seen l = Some v.
Proof.
  intros Hnone%last_None Hs Hv. unfold first_seen.
  rewrite <- (take_drop_middle l i s Hs), omap_app, Hnone. simpl.
  by rewrite Hv.
Qed.

Section counter.

Import Prophet.

Variable period : Z.
Variable new_data : list sample.
Variables start_time end_time : datetime.
Variables reset_low reset_high : Z.
Variable first : Z.
Hypothesis readings_nondecreasing : nondecreasing new_data.
Hypothesis first_reading : first_seen new_data = Some first.

Local Abbreviation loop_body :=
  (loop_body period new_data true 0 reset_low reset_high).
Local Abbreviation update := (update true 0 reset_low reset_high).

Lemma parse_seen st s :
  new_data !! data_index st = Some s →
  (last_value st = seen (take (data_index st) new_data) ∨
   last_value st = seen (take (S (data_index st)) new_data)) →
  match parse st s with
  | Some (v, lv) => seen (take (S (data_index st)) new_data) = Some v
  | None => seen (take (S (data_index st)) new_data) = None
  end.
Proof.
  intros Hs Hlv. rewrite (seen_take_S _ _ _ Hs) in *. unfold parse.
  destruct (state s) as [v|], (last_value st) as [lv|]; simpl; try done;
    destruct Hlv; congruence.
Qed.

Lemma parse_nondecreasing st s v lv :
  new_data !! data_index st = Some s →
  (last_value st = seen (take (data_index st) new_data) ∨
   last_value st = seen (take (S (data_index st)) new_data)) →
  parse st s = Some (v, lv) → lv ≤ v.
Proof.
  intros Hs Hlv. unfold parse.
  destruct (state s) as [pv|] eqn:Hpv, (last_value st) as [lv0|] eqn:Hlast;
    intros [= <- <-]; try lia.
  destruct Hlv as [Hseen|Hseen]; symmetry in Hseen.
  - apply seen_Some_lookup in Hseen as (j & sj & Hj & Hsj & Hvj).
    eapply (readings_nondecreasing j (data_index st)); eauto. lia.
  - rewrite (seen_take_S _ _ _ Hs), Hpv in Hseen. injection Hseen. lia.
Qed.

Lemma update_counter st s v lv :
  0 ≤ total st → lv ≤ v →
  parse st s = Some (v, lv) →
  update st s = Some (v, total st + v - lv).
Proof.
  intros Ht Hle Hp. unfold Prophet.update. rewrite Hp. simpl.
  unfold accumulate, is_reset, is_spike.
  rewrite (proj2 (Z.ltb_ge v lv)) by done. simpl.
  do 2 f_equal. lia.
Qed.

(** X4.  For a counter whose parsed readings never fall, read with
    [incrementing] and without spike filter, the rows and the total that
    no row has taken yet add up to the last value less the first parsed
    reading: the frame accounts for the advance of the counter, and its
    rows never add up to more than that advance. *)
Theorem process_dataset_counter_telescopes :
  0 < period →
  ∃ st,
    Prophet.loop period new_data end_time true 0 reset_low reset_high
      (passes period new_data start_time end_time) (init start_time)
    = Some st ∧
    process_dataset period new_data start_time end_time true 0 reset_low
      reset_high = Some (dataset st, value st) ∧
    0 ≤ total st ∧
    (last_value st = None ∧ dataset st = [] ∨
     sum_y (dataset st) + total st = value st - first ∧
     sum_y (dataset st) ≤ value st - first).
Proof.
  intros Hp.
  destruct (process_dataset_invariant period new_data start_time end_time
              true 0 reset_low reset_high
              (λ st,
                 (last_value st = seen (take (data_index st) new_data) ∨
                  last_value st = seen (take (S (data_index st)) new_data)) ∧
                 0 ≤ total st ∧
                 match last_value st with
                 | None => dataset st = [] ∧ total st = 0
                 | Some lv =>
                   value st = lv ∧ sum_y (dataset st) + total st = lv - first
                 end) Hp)
    as (st & Hres & (_ & Htot & Hsum) & _ & Hloop).
  { split_and!; simpl; [by left|lia|done]. }
  { intros st Hc (Hlv & Htot & Hsum).
    destruct (loop_body_cases period new_data end_time true 0 reset_low
                reset_high st Hc)
      as (s & Hs & [[Hu ->]|(v & t & Hu & ->)]);
      pose proof (parse_seen st s Hs Hlv) as Hseen.
    - (* no seed yet *)
      unfold Prophet.update in Hu.
      destruct (parse st s) as [[? ?]|] eqn:Hparse; [done|].
      assert (last_value st = None) as Hnone.
      { revert Hparse. unfold parse.
        by destruct (state s), (last_value st). }
      simpl. rewrite Hnone in *. destruct Hsum.
      split_and!; [left; congruence|done|done|done].
    - destruct (parse st s) as [[pv lv]|] eqn:Hparse;
        [|by unfold Prophet.update in Hu; rewrite Hparse in Hu].
      pose proof (parse_nondecreasing st s pv lv Hs Hlv Hparse) as Hle.
      rewrite (update_counter st s pv lv Htot Hle Hparse) in Hu.
      injection Hu as <- <-.
      assert (sum_y (dataset st) + (total st + pv - lv) = pv - first)
        as Hnew.
      { revert Hparse Hsum. unfold parse.
        destruct (state s) as [sv|] eqn:Hsv,
                 (last_value st) as [lv0|] eqn:Hlast;
          intros [= <- <-] Hsum; try lia.
        destruct Hsum as [-> ->]. simpl.
        assert (first_seen new_data = Some sv) as Hfirst.
        { destruct Hlv as [Hl|Hl]; symmetry in Hl.
          - by eapply seen_None_first.
          - rewrite (seen_take_S _ _ _ Hs), Hsv in Hl. done. }
        rewrite first_reading in Hfirst. injection Hfirst. lia. }
      unfold commit. destruct (before_tick s (timenow st)); simpl.
      + split_and!; [by left|lia|done|done].
      + split_and!; [by right|lia|done|].
        rewrite sum_y_snoc. simpl. lia. }
  exists st. split_and!; [done|done|done|].
  destruct (last_value st) as [lv|].
  - right. destruct Hsum as [-> Hsum]. lia.
  - left. by destruct Hsum.
Qed.

End counter.

Lemma process_dataset_counter_telescopes_witness :
  let new_data := [reading 0 10; reading 1 15; reading 30 15; reading 31 18] in
  nondecreasing new_data ∧ first_seen new_data = Some 10 ∧ 0 < 30 ∧
  ∃ st,
    Prophet.process_dataset 30 new_data (utc 0) (utc 31) true 0 0 0
    = Some (Prophet.dataset st, Prophet.value st) ∧
    (Prophet.last_value st = None ∧ Prophet.dataset st = [] ∨
     sum_y (Prophet.dataset st) + Prophet.total st = Prophet.value st - 10 ∧
     sum_y (Prophet.dataset st) ≤ Prophet.value st - 10).
Proof.
  intros new_data.
  assert (nondecreasing new_data) as Hmono.
  { intros i j si sj vi vj Hij Hi Hj Hvi Hvj.
    destruct i as [|[|[|[|i]]]]; simplify_eq/=;
      destruct j as [|[|[|[|j]]]]; simplify_eq/=; lia. }
  split; [done|]. split; [done|]. split; [lia|].
  destruct (process_dataset_counter_telescopes 30 new_data (utc 0) (utc 31)
              0 0 10 Hmono eq_refl) as (st & _ & Hres & _ & Hsum); [lia|].
  exists st. by split.
Defined.

(** * Further properties of [save_prediction] *)

Section publication_maps.

Import Prophet.

Variable now : datetime.
Variables incrementing reset_daily : bool.
Variable days : Z.

Local Abbreviation save_row := (save_row now incrementing reset_daily days).
Local Abbreviation save_rows := (save_rows now incrementing reset_daily days).
Local Abbreviation save_prediction :=
  (save_prediction now incrementing reset_daily days).

Lemma save_row_results st row :
  timeseries (save_row st row)
  = if retained now days row
    then <[time_key now row :=
             round2 (if incrementing then sp_total (save_row st row)
                     else pred_yhat1 row)]> (timeseries st)
    else timeseries st.
Proof.
  unfold Prophet.save_row, retained, time_key.
  destruct (daily_reset _ _ _); simpl;
    destruct (_ <? _); simpl; try done; by destruct incrementing.
Qed.

Lemma save_row_source_keys st row :
  timeseries_org (save_row st row) = timeseries_org st ∨
  retained now days row = true ∧
  ∃ v, timeseries_org (save_row st row)
       = <[time_key now row := v]> (timeseries_org st).
Proof.
  unfold Prophet.save_row, retained, time_key.
  destruct (daily_reset _ _ _); simpl;
    destruct (_ <? _); simpl; try (by left);
    destruct incrementing; simpl;
    destruct (truthy (pred_y row)); eauto.
Qed.


Lemma save_prediction_maps pred p :
  save_prediction pred = Some p →
  pub_results p = timeseries (save_rows pred) ∧
  pub_source p = timeseries_org (save_rows pred).
Proof.
  unfold Prophet.save_prediction.
  destruct (if incrementing then _ else _); simpl; [|done].
  by intros [= <-].
Qed.

(** X6.  [save_prediction] fails only on an empty forecast without
    [incrementing], where [value] is read before it is bound; an empty
    forecast with [incrementing] publishes the state 0 and two empty
    maps. *)
Theorem save_prediction_unbound_value pred :
  (save_prediction pred = None ↔ pred = [] ∧ incrementing = false) ∧
  (pred = [] → incrementing = true →
   save_prediction pred = Some (Publication 0 ∅ ∅)).
Proof.
  split; [split|].
  - intros Hnone. destruct pred as [|r pred].
    + split; [done|]. revert Hnone. unfold Prophet.save_prediction.
      by destruct incrementing.
    + destruct (save_rows_value now incrementing reset_daily days
                  (r :: pred)) as [v Hv]; [done|].
      revert Hnone. unfold Prophet.save_prediction. rewrite Hv.
      by destruct incrementing.
  - intros [-> Hinc]. unfold Prophet.save_prediction. by rewrite Hinc.
  - intros -> Hinc. unfold Prophet.save_prediction. by rewrite Hinc.
Qed.

Lemma foldl_save_row_dom pred : ∀ st,
  dom (timeseries_org st) ⊆ dom (timeseries st) →
  dom (timeseries_org (foldl save_row st pred))
  ⊆ dom (timeseries (foldl save_row st pred)).
Proof.
  induction pred as [|r pred IH]; intros st Hsub; simpl; [done|].
  apply IH. rewrite save_row_results.
  destruct (save_row_source_keys st r) as [->|(-> & v & ->)].
  - destruct (retained now days r); [|done]. rewrite dom_insert_L.
    etrans; [exact Hsub|apply union_subseteq_r].
  - rewrite !dom_insert_L. by apply union_mono_l.
Qed.

(** X7.  Every timestamp of the published source map is a timestamp of
    the published results map. *)
Theorem save_prediction_source_in_results pred p :
  save_prediction pred = Some p →
  dom (pub_source p) ⊆ dom (pub_results p).
Proof.
  intros [-> ->]%save_prediction_maps.
  apply foldl_save_row_dom. done.
Qed.

Lemma foldl_save_row_results_dom pred : ∀ st,
  dom (timeseries (foldl save_row st pred))
  = dom (timeseries st)
    ∪ list_to_set (time_key now <$> List.filter (retained now days) pred).
Proof.
  induction pred as [|r pred IH]; intros st; simpl;
    [by rewrite (right_id_L ∅ (∪))|].
  rewrite IH, save_row_results.
  destruct (retained now days r); simpl; [|done].
  rewrite dom_insert_L, (comm_L (∪) {[time_key now r]} (dom (timeseries st))).
  by rewrite <- (assoc_L (∪)).
Qed.

(** X8.  The results map has an entry for exactly the forecast rows that
    are not older than [days] whole days below [now]; older rows only
    feed the totals. *)
Theorem save_prediction_results_window pred p :
  save_prediction pred = Some p →
  dom (pub_results p)
  = list_to_set (time_key now <$> List.filter (retained now days) pred).
Proof.
  intros [-> _]%save_prediction_maps.
  unfold Prophet.save_rows. rewrite foldl_save_row_results_dom.
  unfold save_init. simpl. by rewrite dom_empty_L, (left_id_L ∅ (∪)).
Qed.





End publication_maps.

Lemma save_prediction_source_in_results_witness :
  let pred := [Prophet.ForecastRow 720 5 (Some 4);
               Prophet.ForecastRow 1440 7 (Some 0)] in
  ∃ p, Prophet.save_prediction (utc 2880) false false 7 pred = Some p ∧
       dom (Prophet.pub_source p) ⊆ dom (Prophet.pub_results p).
Proof.
  intros pred. eexists. split; [reflexivity|].
  by apply (save_prediction_source_in_results (utc 2880) false false 7 pred).
Defined.

Lemma save_prediction_results_window_witness :
  let pred := [Prophet.ForecastRow 0 5 None;
               Prophet.ForecastRow 14400 7 None] in
  ∃ p, Prophet.save_prediction (utc 14400) true false 7 pred = Some p ∧
       dom (Prophet.pub_results p)
       = list_to_set (time_key (utc 14400)
                        <$> List.filter (retained (utc 14400) 7) pred).
Proof.
  intros pred. eexists. split; [reflexivity|].
  by apply (save_prediction_results_window (utc 14400) true false 7 pred).
Defined.



(** * Further properties of [subtract_set] *)

Lemma subtract_set_fmap dataset subset now incrementing :
  subtract_set dataset subset now incrementing
  = subtracted incrementing subset <$> dataset.
Proof. unfold subtract_set. by rewrite subtract_loop_rows. Qed.

(** X11.  With [incrementing] no value of the frame that [subtract_set]
    returns is negative, whatever the two series hold. *)
Theorem subtract_set_incrementing_nonneg dataset subset now r :
  r ∈ subtract_set dataset subset now true → 0 ≤ y r.
Proof.
  rewrite subtract_set_fmap.
  intros (r0 & -> & _)%list_elem_of_fmap. unfold subtracted. simpl. lia.
Qed.

Lemma subtract_set_incrementing_nonneg_witness :
  Row (utc 1) 0 ∈ subtract_set [Row (utc 1) 3] [Row (utc 1) 10] (utc 0) true ∧
  0 ≤ y (Row (utc 1) 0).
Proof.
  assert (Row (utc 1) 0
          ∈ subtract_set [Row (utc 1) 3] [Row (utc 1) 10] (utc 0) true)
    as Hin by apply list_elem_of_here.
  split; [done|].
  by apply (subtract_set_incrementing_nonneg [Row (utc 1) 3]
              [Row (utc 1) 10] (utc 0)).
Defined.








(** * Properties of [print_dataset] *)

Lemma print_loop_take rows : ∀ count,
  0 ≤ count ≤ 24 →
  print_loop rows count = take (Z.to_nat (25 - count)) rows.
Proof.
  induction rows as [|r rows IH]; intros count Hc; simpl.
  - by rewrite take_nil.
  - replace (Z.to_nat (25 - count)) with (S (Z.to_nat (24 - count))) by lia.
    simpl. destruct (count + 1 >? 24) eqn:Hgt.
    + rewrite Z.gtb_ltb in Hgt. apply Z.ltb_lt in Hgt.
      replace (Z.to_nat (24 - count)) with 0%nat by lia. done.
    + rewrite Z.gtb_ltb in Hgt. apply Z.ltb_ge in Hgt.
      rewrite IH by lia. do 2 f_equal. lia.
Qed.

(** X17.  [print_dataset] prints the first 25 rows of the frame, and all
    of a frame that has fewer. *)
Theorem print_dataset_first_rows dataset :
  print_dataset dataset = take 25 dataset ∧
  (length (print_dataset dataset) ≤ 25)%nat ∧
  ((length dataset ≤ 25)%nat → print_dataset dataset = dataset).
Proof.
  assert (print_dataset dataset = take 25 dataset) as Heq.
  { unfold print_dataset. by rewrite print_loop_take by lia. }
  rewrite Heq. split_and!; [done|rewrite length_take; lia|].
  intros Hlen. by apply take_ge.
Qed.

(** * Further properties of the database *)

Lemma elem_of_insert_by_timestamp e x rows :
  e ∈ insert_by_timestamp x rows ↔ e = x ∨ e ∈ rows.
Proof.
  induction rows as [|r rows IH]; simpl.
  - rewrite list_elem_of_singleton, elem_of_nil. tauto.
  - destruct (String.leb x.1 r.1).
    + by rewrite elem_of_cons.
    + rewrite !elem_of_cons, IH. tauto.
Qed.

Lemma elem_of_order_by_timestamp e table :
  e ∈ order_by_timestamp table ↔ e ∈ table.
Proof.
  unfold order_by_timestamp. induction table as [|r table IH]; simpl.
  - done.
  - by rewrite elem_of_insert_by_timestamp, elem_of_cons, IH.
Qed.

Lemma Database_get_history_rows table :
  Database_get_history table = order_by_timestamp table.
Proof.
  unfold Database_get_history.
  assert (∀ rows history : list Database.stored,
            foldl (λ history row, history ++ [(row.1, row.2)]) history rows
            = history ++ rows) as Hloop.
  { induction rows as [|[k v] rows IH]; intros history; simpl.
    - by rewrite app_nil_r.
    - by rewrite IH, <- app_assoc. }
  by rewrite Hloop.
Qed.

Lemma Database_get_history_keys table k :
  k ∈ (Database_get_history table).*1 ↔ k ∈ table.*1.
Proof.
  rewrite Database_get_history_rows, !list_elem_of_fmap.
  by setoid_rewrite elem_of_order_by_timestamp.
Qed.

Section store_history_results.

Import Database.

Variable str : datetime → string.

Local Abbreviation store_loop := (store_loop str).
Local Abbreviation store_history := (store_history str).

Lemma new_rows_ext prev_values prev_values' history :
  (∀ k, k ∈ prev_values ↔ k ∈ prev_values') →
  new_rows str prev_values history = new_rows str prev_values' history.
Proof.
  intros Hiff. induction history as [|r history IH]; [done|].
  rewrite !new_rows_cons, IH.
  destruct (decide (str (ds r) ∈ prev_values)) as [Hin|Hnotin].
  - by rewrite decide_True by by apply Hiff.
  - rewrite decide_False; [done|]. by rewrite <- Hiff.
Qed.

(** The loop returns exactly when the new rows have distinct keys that
    the table does not hold. *)
Lemma store_loop_ok_iff prev_values history : ∀ table prev added_rows res,
  store_loop prev_values history table prev added_rows = Ok res ↔
  res = (table ++ new_rows str prev_values history,
         prev ++ new_rows str prev_values history,
         (added_rows + length (new_rows str prev_values history))%nat) ∧
  NoDup (new_rows str prev_values history).*1 ∧
  ∀ k, k ∈ (new_rows str prev_values history).*1 → k ∉ table.*1.
Proof.
  induction history as [|r history IH]; intros table prev added_rows res.
  - simpl. rewrite !app_nil_r, Nat.add_0_r. split.
    + intros [= <-]. split_and!; [done|constructor|by intros k ?%elem_of_nil].
    + by intros [-> _].
  - rewrite new_rows_cons. simpl.
    destruct (decide (str (ds r) ∈ prev_values)) as [Hin|Hnew].
    + rewrite bool_decide_eq_true_2 by done. apply IH.
    + rewrite bool_decide_eq_false_2 by done. unfold insert_row.
      destruct (decide (str (ds r) ∈ table.*1)) as [Hheld|Hfree].
      * rewrite bool_decide_eq_true_2 by done. split; [done|].
        intros (_ & _ & Hfresh). destruct (Hfresh (str (ds r))); [by left|done].
      * rewrite bool_decide_eq_false_2 by done. rewrite IH.
        rewrite <- !app_assoc. simpl.
        rewrite NoDup_cons, fmap_app. simpl.
        split; intros (-> & Hnd & Hfresh).
        -- split_and!; [f_equal; lia| |done|].
           ++ intros Hdup. apply (Hfresh _ Hdup), elem_of_app. right. by left.
           ++ intros k [->|Hk]%elem_of_cons; [done|].
              intros Hin. apply (Hfresh k Hk), elem_of_app. by left.
        -- destruct Hnd as [Hnotin Hnd]. split_and!; [f_equal; lia|done|].
           intros k Hk [Hin|Hin%list_elem_of_singleton]%elem_of_app.
           ++ apply (Hfresh k); [by right|done].
           ++ by subst k.
Qed.

Lemma store_loop_raises prev_values history : ∀ table prev added_rows e,
  store_loop prev_values history table prev added_rows = Raise e →
  e = IntegrityError.
Proof.
  induction history as [|r history IH]; intros table prev added_rows e;
    simpl; [done|].
  destruct (bool_decide (str (ds r) ∈ prev_values)); [apply IH|].
  unfold insert_row. destruct (bool_decide (str (ds r) ∈ table.*1)).
  - by intros [= <-].
  - apply IH.
Qed.

(** X14.  Given a frame [prev], [store_history] returns exactly when the
    candidate rows whose timestamps are not in [prev] have timestamps
    that differ from one another and that the table does not hold; it
    then puts exactly these rows, in their order, at the end of the table
    and of [prev].  In every other case it raises [IntegrityError]: a
    duplicate key is never skipped by the write itself. *)
Theorem store_history_returns_iff table history prev :
  let new := new_rows str prev.*1 history in
  let fresh := NoDup new.*1 ∧ ∀ k, k ∈ new.*1 → k ∉ table.*1 in
  (∀ res, store_history table history (Some prev) = Ok res ↔
          res = (table ++ new, prev ++ new) ∧ fresh) ∧
  (¬ fresh → store_history table history (Some prev) = Raise IntegrityError).
Proof.
  intros new fresh. unfold Database.store_history.
  destruct (store_loop prev.*1 history table prev 0) as [[[t p] n]|e]
    eqn:Hloop.
  - apply store_loop_ok_iff in Hloop as ([= -> -> ->] & Hfresh).
    split; [|done]. intros res. split; [by intros [= <-]|by intros [-> _]].
  - split.
    + intros res. split; [done|]. intros [_ Hfresh].
      assert (store_loop prev.*1 history table prev 0
              = Ok (table ++ new, prev ++ new, (0 + length new)%nat)) as Hok
        by by apply store_loop_ok_iff.
      rewrite Hok in Hloop. done.
    + intros _. by rewrite (store_loop_raises _ _ _ _ _ _ Hloop).
Qed.

(** X15.  Read and store as the module's [get_history] does: on a table
    with distinct keys and for a candidate frame with distinct
    timestamps, storing with the frame just read from the table never
    raises; it adds the rows whose timestamps the table does not hold
    and leaves the keys of the table distinct. *)
Theorem get_history_store_ok table dataset :
  NoDup table.*1 →
  NoDup ((λ r, str (ds r)) <$> dataset) →
  get_history_store str table dataset
  = Ok (table ++ new_rows str table.*1 dataset,
        Database_get_history table ++ new_rows str table.*1 dataset) ∧
  NoDup (table ++ new_rows str table.*1 dataset).*1.
Proof.
  intros Htable Hdataset. unfold get_history_store, Database.store_history.
  rewrite (new_rows_ext table.*1 (Database_get_history table).*1)
    by (intros k; by rewrite Database_get_history_keys).
  rewrite store_loop_new_rows.
  - split; [done|]. rewrite fmap_app. apply NoDup_app. split_and!; [done| |].
    + intros k Hin [Hnew _]%new_rows_keys.
      by apply Hnew, Database_get_history_keys.
    + by apply new_rows_NoDup.
  - done.
  - intros k [Hnew _]%new_rows_keys Hin.
    by apply Hnew, Database_get_history_keys.
Qed.

Lemma new_rows_known prev_values history :
  (∀ r, r ∈ history → str (ds r) ∈ prev_values) →
  new_rows str prev_values history = [].
Proof.
  induction history as [|r history IH]; intros Hknown; [done|].
  rewrite new_rows_cons, decide_True by (apply Hknown; by left).
  apply IH. intros r' Hr'. apply Hknown. by right.
Qed.

Lemma new_rows_covers prev_values history r :
  r ∈ history →
  str (ds r) ∈ prev_values ∨
  str (ds r) ∈ (new_rows str prev_values history).*1.
Proof.
  intros Hr. destruct (decide (str (ds r) ∈ prev_values)); [by left|].
  right. unfold new_rows. rewrite <- list_fmap_compose.
  apply list_elem_of_fmap. exists r. split; [done|].
  by apply list_elem_of_filter.
Qed.

(** X16.  Storing the same candidate frame a second time, again with the
    frame read from the table, adds no row: the table after the second
    store is the table after the first. *)
Theorem get_history_store_twice table dataset table' prev' :
  NoDup table.*1 →
  NoDup ((λ r, str (ds r)) <$> dataset) →
  get_history_store str table dataset = Ok (table', prev') →
  get_history_store str table' dataset
  = Ok (table', Database_get_history table').
Proof.
  intros Htable Hdataset Hfirst.
  destruct (get_history_store_ok table dataset Htable Hdataset)
    as [Hok Hnd].
  rewrite Hok in Hfirst. injection Hfirst as <- <-.
  destruct (get_history_store_ok _ dataset Hnd Hdataset) as [-> _].
  rewrite (new_rows_known (table ++ new_rows str table.*1 dataset).*1
             dataset); [by rewrite !app_nil_r|].
  intros r Hr. rewrite fmap_app. apply elem_of_app.
  by apply new_rows_covers.
Qed.

End store_history_results.

Lemma get_history_store_ok_witness :
  let table := [("1970-01-01 00:30:00+00:00"%string, 6)] in
  let dataset := [Row (utc 0) 5; Row (utc 30) 6] in
  NoDup table.*1 ∧
  NoDup ((λ r, str_epoch (ds r)) <$> dataset) ∧
  get_history_store str_epoch table dataset
  = Database.Ok
      (table ++ [("1970-01-01 00:00:00+00:00"%string, 5)],
       table ++ [("1970-01-01 00:00:00+00:00"%string, 5)]).
Proof.
  intros table dataset.
  assert (NoDup table.*1) as Htable.
  { apply (bool_decide_unpack _). reflexivity. }
  assert (NoDup ((λ r, str_epoch (ds r)) <$> dataset)) as Hdataset.
  { apply (bool_decide_unpack _). reflexivity. }
  split; [done|]. split; [done|].
  destruct (get_history_store_ok str_epoch table dataset Htable Hdataset)
    as [-> _].
  reflexivity.
Defined.

Lemma get_history_store_twice_witness :
  let table := [("1970-01-01 00:30:00+00:00"%string, 6)] in
  let dataset := [Row (utc 0) 5; Row (utc 30) 6] in
  let table' := table ++ [("1970-01-01 00:00:00+00:00"%string, 5)] in
  NoDup table.*1 ∧
  NoDup ((λ r, str_epoch (ds r)) <$> dataset) ∧
  get_history_store str_epoch table dataset = Database.Ok (table', table') ∧
  get_history_store str_epoch table' dataset
  = Database.Ok (table', Database_get_history table').
Proof.
  intros table dataset table'.
  assert (NoDup table.*1) as Htable.
  { apply (bool_decide_unpack _). reflexivity. }
  assert (NoDup ((λ r, str_epoch (ds r)) <$> dataset)) as Hdataset.
  { apply (bool_decide_unpack _). reflexivity. }
  split; [done|]. split; [done|]. split; [reflexivity|].
  by apply (get_history_store_twice str_epoch table dataset table' table').
Defined.
